(** * paynow-mbank-lib: the request-signing protocol and the gateway client

    A shallow embedding of [src/utils/signatureCalculator.ts] and
    [src/client/paymentClient.ts].  The library signs outbound API calls
    and verifies inbound webhook notifications with HMAC-SHA256 (Node's
    [crypto]); the client wraps two HTTP calls (axios) and the parsing of
    notifications ([JSON.parse]).

    The repository holds two generations of the code side by side: an
    earlier one whose [calculateSignature] takes the data alone, and a
    later one whose [calculateSignature] takes headers, parameters and
    body.  Both are embedded, in [Module V1] and [Module V2]; the methods
    whose text is the same in both are embedded once.

    Conventions.  A JavaScript string is its sequence of UTF-16 code
    units, [list N]; a byte sequence is a [list N] of values below 256; a
    32-bit word is an [N] reduced modulo [2^32]. *)

From Stdlib Require Import NArith ZArith Ascii String List Permutation Sorted Lia.
From stdpp Require Import base list sorting.
Import ListNotations.

Local Open Scope N_scope.

(** ** JavaScript strings *)

Definition jsstring := list N.
Definition bytes := list N.

(** [js "abc"] is the JavaScript string of an ASCII literal. *)
Definition js (s : string) : jsstring :=
  List.map N_of_ascii (list_ascii_of_string s).

(** [jsq] is [js] with every apostrophe read as a double quote, to write
    JSON texts as literals: [jsq "{'a':'b'}"] is the text [{"a":"b"}]. *)
Definition jsq (s : string) : jsstring :=
  List.map (fun c => if c =? 39 then 34 else c) (js s).

(** Strict equality [===] of two strings: the same code units. *)
Fixpoint str_eqb (a b : jsstring) : bool :=
  match a, b with
  | [], [] => true
  | x :: a', y :: b' => (x =? y) && str_eqb a' b'
  | _, _ => false
  end.

(** The relational operator [<] of two strings: lexicographic on code
    units, a proper prefix first. *)
Fixpoint str_ltb (a b : jsstring) : bool :=
  match a, b with
  | _, [] => false
  | [], _ :: _ => true
  | x :: a', y :: b' =>
      if x <? y then true else if y <? x then false else str_ltb a' b'
  end.

(** Number::toString of a non-negative integer of at most 15 digits. *)
Fixpoint dec_digits (fuel : nat) (n : N) (acc : jsstring) : jsstring :=
  match fuel with
  | O => acc
  | S f =>
      let acc' := (48 + n mod 10) :: acc in
      if n <? 10 then acc' else dec_digits f (n / 10) acc'
  end.

Definition N_toString (n : N) : jsstring :=
  dec_digits (S (N.to_nat (N.log2 n))) n [].

(** ** SHA-256 (FIPS 180-4), HMAC (RFC 2104), Base64 (RFC 4648), UTF-8

    What [crypto.createHmac('sha256', key).update(data, 'utf8')
    .digest('base64')] computes. *)

Module SHA256.

Definition add32 (x y : N) : N := (x + y) mod 2 ^ 32.
Definition rotr (n x : N) : N :=
  N.lor (N.shiftr x n) (N.shiftl x (32 - n) mod 2 ^ 32).
Definition not32 (x : N) : N := N.lxor x 0xFFFFFFFF.

Definition Ch (x y z : N) : N := N.lxor (N.land x y) (N.land (not32 x) z).
Definition Maj (x y z : N) : N :=
  N.lxor (N.lxor (N.land x y) (N.land x z)) (N.land y z).
Definition bsig0 (x : N) : N := N.lxor (N.lxor (rotr 2 x) (rotr 13 x)) (rotr 22 x).
Definition bsig1 (x : N) : N := N.lxor (N.lxor (rotr 6 x) (rotr 11 x)) (rotr 25 x).
Definition ssig0 (x : N) : N := N.lxor (N.lxor (rotr 7 x) (rotr 18 x)) (N.shiftr x 3).
Definition ssig1 (x : N) : N := N.lxor (N.lxor (rotr 17 x) (rotr 19 x)) (N.shiftr x 10).

(** The constants are derived as the standard defines them: the first 32
    bits of the fractional parts of the cube roots of the first 64 primes,
    and of the square roots of the first 8 primes for the initial hash. *)
Definition is_prime (n : nat) : bool :=
  (1 <? n)%nat && forallb (fun d => negb (n mod d =? 0)%nat) (seq 2 (n - 2)).

Definition primes : list N := List.map N.of_nat (filter is_prime (seq 2 310)).

Fixpoint cube_root_bits (bits : nat) (x r : N) : N :=
  match bits with
  | O => r
  | S b =>
      let r' := r + 2 ^ N.of_nat b in
      if r' * r' * r' <=? x then cube_root_bits b x r' else cube_root_bits b x r
  end.

Definition cube_root (x : N) : N := cube_root_bits 36 x 0.

Definition K : list N :=
  List.map (fun p => cube_root (p * 2 ^ 96) mod 2 ^ 32) primes.

Definition H0 : list N :=
  List.map (fun p => N.sqrt (p * 2 ^ 64) mod 2 ^ 32) (firstn 8 primes).

(** The message is followed by the byte 0x80, zero bytes up to 56 modulo
    64, and its length in bits as a 64-bit big-endian integer. *)
Definition be_bytes (count : nat) (x : N) : bytes :=
  List.map (fun i => N.shiftr x (8 * N.of_nat i) mod 256) (rev (seq 0 count)).

Definition pad (msg : bytes) : bytes :=
  let len := N.of_nat (length msg) in
  let zeros := (64 + 55 - len mod 64) mod 64 in
  msg ++ [0x80] ++ repeat 0 (N.to_nat zeros) ++ be_bytes 8 (8 * len).

Fixpoint words (bs : bytes) : list N :=
  match bs with
  | b0 :: b1 :: b2 :: b3 :: rest =>
      (((b0 * 256 + b1) * 256 + b2) * 256 + b3) :: words rest
  | _ => []
  end.

Fixpoint blocks (fuel : nat) (ws : list N) : list (list N) :=
  match fuel, ws with
  | S f, _ :: _ => firstn 16 ws :: blocks f (skipn 16 ws)
  | _, _ => []
  end.

(** The message schedule, computed over a window of the last 16 words. *)
Fixpoint extend (count : nat) (win : list N) : list N :=
  match count with
  | O => []
  | S c =>
      let x := add32 (add32 (ssig1 (nth 14 win 0)) (nth 9 win 0))
                     (add32 (ssig0 (nth 1 win 0)) (nth 0 win 0)) in
      x :: extend c (tl win ++ [x])
  end.

Definition schedule (block : list N) : list N := block ++ extend 48 block.

Definition round (st : list N) (kw : N * N) : list N :=
  match st with
  | [a; b; c; d; e; f; g; h] =>
      let t1 := add32 (add32 (add32 h (bsig1 e)) (add32 (Ch e f g) (fst kw))) (snd kw) in
      let t2 := add32 (bsig0 a) (Maj a b c) in
      [add32 t1 t2; a; b; c; add32 d t1; e; f; g]
  | _ => st
  end.

Definition compress (h : list N) (block : list N) : list N :=
  List.map (fun p => add32 (fst p) (snd p))
    (combine h (fold_left round (combine K (schedule block)) h)).

Definition sha256 (msg : bytes) : bytes :=
  let ws := words (pad msg) in
  flat_map (be_bytes 4) (fold_left compress (blocks (length ws) ws) H0).

End SHA256.

Module HMAC.

Definition block_size : nat := 64.

Definition block_key (key : bytes) : bytes :=
  let k := if (block_size <? length key)%nat then SHA256.sha256 key else key in
  k ++ repeat 0 (block_size - length k).

Definition hmac_sha256 (key msg : bytes) : bytes :=
  let k := block_key key in
  SHA256.sha256 (List.map (N.lxor 0x5c) k
                 ++ SHA256.sha256 (List.map (N.lxor 0x36) k ++ msg)).

End HMAC.

Module Base64.

Definition alphabet : jsstring :=
  js "ABCDEFGHIJKLMNOPQRSTUVWXYZabcdefghijklmnopqrstuvwxyz0123456789+/".

Definition char (i : N) : N := nth (N.to_nat (i mod 64)) alphabet 0.

Definition pad_char : N := 61.

Fixpoint encode (bs : bytes) : jsstring :=
  match bs with
  | [] => []
  | [b0] =>
      [char (b0 / 4); char (b0 mod 4 * 16); pad_char; pad_char]
  | [b0; b1] =>
      [char (b0 / 4); char (b0 mod 4 * 16 + b1 / 16);
       char (b1 mod 16 * 4); pad_char]
  | b0 :: b1 :: b2 :: rest =>
      char (b0 / 4) :: char (b0 mod 4 * 16 + b1 / 16)
      :: char (b1 mod 16 * 4 + b2 / 64) :: char (b2 mod 64) :: encode rest
  end.

End Base64.

Module UTF8.

Definition is_high_surrogate (c : N) : bool := (0xD800 <=? c) && (c <=? 0xDBFF).
Definition is_low_surrogate (c : N) : bool := (0xDC00 <=? c) && (c <=? 0xDFFF).

Definition replacement : bytes := [0xEF; 0xBF; 0xBD].

Definition encode_point (cp : N) : bytes :=
  if cp <? 0x80 then [cp]
  else if cp <? 0x800 then [0xC0 + cp / 64; 0x80 + cp mod 64]
  else if cp <? 0x10000 then
    [0xE0 + cp / 4096; 0x80 + cp / 64 mod 64; 0x80 + cp mod 64]
  else
    [0xF0 + cp / 262144; 0x80 + cp / 4096 mod 64;
     0x80 + cp / 64 mod 64; 0x80 + cp mod 64].

(** The 'utf8' encoding of a string: a surrogate pair is one code point,
    a surrogate without its partner is replaced by U+FFFD. *)
Fixpoint encode (s : jsstring) : bytes :=
  match s with
  | [] => []
  | c :: rest =>
      if is_high_surrogate c then
        match rest with
        | d :: rest' =>
            if is_low_surrogate d
            then encode_point (0x10000 + (c - 0xD800) * 1024 + (d - 0xDC00))
                 ++ encode rest'
            else replacement ++ encode rest
        | [] => replacement
        end
      else if is_low_surrogate c then replacement ++ encode rest
      else encode_point c ++ encode rest
  end.

End UTF8.

(** [createHmac('sha256', key).update(data, 'utf8').digest('base64')]; a
    string key is taken as its UTF-8 bytes. *)
Definition hmac_sha256_base64 (key data : jsstring) : jsstring :=
  Base64.encode (HMAC.hmac_sha256 (UTF8.encode key) (UTF8.encode data)).

Definition hex_digit (i : N) : N := if i <? 10 then 48 + i else 87 + i.

Definition hex (bs : bytes) : jsstring :=
  flat_map (fun b => [hex_digit (b / 16); hex_digit (b mod 16)]) bs.

(** ** Objects

    An ordinary object is the list of its own properties in the order
    [Object.keys], [for-in] and [JSON.stringify] visit them: the keys that
    are array indices first, in ascending numeric order, then the other
    keys in the order of their creation (OrdinaryOwnPropertyKeys).  A
    [Record<string, string>] is an [object jsstring]. *)

Definition object (V : Type) := list (jsstring * V).

Definition is_digit (c : N) : bool := (48 <=? c) && (c <=? 57).

Definition dec_value (k : jsstring) : N :=
  fold_left (fun acc c => 10 * acc + (c - 48)) k 0.

(** An array index is the canonical decimal text of an integer below
    [2^32 - 1]: digits only, no leading zero. *)
Definition array_index (k : jsstring) : option N :=
  match k with
  | [] => None
  | c :: r =>
      if forallb is_digit k
         && (negb (c =? 48) || match r with [] => true | _ => false end)
         && (length k <=? 10)%nat
         && (dec_value k <? 4294967295)
      then Some (dec_value k) else None
  end.

Definition proto_key : jsstring := js "__proto__".

Section Objects.
Context {V : Type}.

(** [Object.keys(o)] *)
Definition Object_keys (o : object V) : list jsstring := List.map fst o.

(** [o[k]] for an own property *)
Fixpoint obj_get (o : object V) (k : jsstring) : option V :=
  match o with
  | [] => None
  | (k', v) :: o' => if str_eqb k' k then Some v else obj_get o' k
  end.

Definition obj_has (o : object V) (k : jsstring) : bool :=
  match obj_get o k with Some _ => true | None => false end.

Fixpoint obj_replace (k : jsstring) (v : V) (o : object V) : object V :=
  match o with
  | [] => []
  | (k', v') :: o' =>
      if str_eqb k' k then (k', v) :: o' else (k', v') :: obj_replace k v o'
  end.

(** Where a new array-index key goes: before the first key that is not
    a smaller array index. *)
Fixpoint obj_insert_index (n : N) (k : jsstring) (v : V) (o : object V) : object V :=
  match o with
  | [] => [(k, v)]
  | (k', v') :: o' =>
      match array_index k' with
      | Some m =>
          if m <? n then (k', v') :: obj_insert_index n k v o'
          else (k, v) :: o
      | None => (k, v) :: o
      end
  end.

(** CreateDataProperty: an existing key keeps its place and takes the
    new value; a new key is placed by the enumeration order. *)
Definition obj_define (k : jsstring) (v : V) (o : object V) : object V :=
  if obj_has o k then obj_replace k v o
  else match array_index k with
       | Some n => obj_insert_index n k v o
       | None => o ++ [(k, v)]
       end.

(** The assignment [o[k] = v] of a value that is not an object, on an
    object created by an object literal.  A key the object does not own
    is looked up on [Object.prototype]: the inherited [__proto__] is an
    accessor whose setter ignores such a value, so nothing is created;
    every other key becomes an own property. *)
Definition obj_set (k : jsstring) (v : V) (o : object V) : object V :=
  if obj_has o k then obj_replace k v o
  else if str_eqb k proto_key then o
  else obj_define k v o.

End Objects.

(** ** [Array.prototype.sort] without a comparator

    The elements are compared as strings with [<]; the order of two
    elements is kept when neither is less than the other. *)

Definition str_le (a b : jsstring) : Prop := str_ltb b a = false.

#[global] Instance str_le_dec a b : Decision (str_le a b).
Proof. unfold str_le. destruct (str_ltb b a); [right | left]; congruence. Defined.

Definition Array_sort (l : list jsstring) : list jsstring := merge_sort str_le l.

(** ** JSON values and [JSON.stringify] *)

(** A number is kept as the exact decimal [m * 10^e].  The rounding of
    numbers to double precision is not modelled: [Number_toString] renders
    a number as JavaScript does when it has at most 15 significant digits
    and a magnitude of at least [10^-6] and below [10^21]. *)
#[local] Set Warnings "-register-all".

Inductive json : Type :=
  | JNull
  | JBool (b : bool)
  | JNum (m e : Z)
  | JStr (s : jsstring)
  | JArr (items : list json)
  | JObj (props : list (jsstring * json)).

Definition Z_toString (z : Z) : jsstring :=
  (if (z <? 0)%Z then [45] else []) ++ N_toString (Z.abs_N z).

Fixpoint strip_zeros_rev (r : jsstring) : jsstring :=
  match r with
  | 48 :: r' => strip_zeros_rev r'
  | _ => r
  end.

Definition Number_toString (m e : Z) : jsstring :=
  if (0 <=? e)%Z then Z_toString (m * 10 ^ e)
  else
    let k := Z.to_N (- e) in
    let a := Z.abs_N m in
    let ip := a / 10 ^ k in
    let fp := a mod 10 ^ k in
    if fp =? 0 then Z_toString (Z.sgn m * Z.of_N ip)
    else
      let digits := N_toString fp in
      let padded := repeat 48 (N.to_nat k - length digits) ++ digits in
      (if (m <? 0)%Z then [45] else []) ++ N_toString ip ++ [46]
      ++ rev (strip_zeros_rev (rev padded)).

(** QuoteJSONString: the short escapes, [\u00xx] for the other control
    characters, [\udxxx] for a surrogate without its partner, every other
    code unit as it is. *)
Definition unicode_escape (c : N) : jsstring :=
  [92; 117; hex_digit (c / 4096 mod 16); hex_digit (c / 256 mod 16);
   hex_digit (c / 16 mod 16); hex_digit (c mod 16)].

Definition quote_unit (c : N) : jsstring :=
  if c =? 8 then js "\b" else if c =? 9 then js "\t"
  else if c =? 10 then js "\n" else if c =? 12 then js "\f"
  else if c =? 13 then js "\r"
  else if c =? 34 then [92; 34] else if c =? 92 then [92; 92]
  else if c <? 32 then unicode_escape c
  else [c].

Fixpoint quote_units (s : jsstring) : jsstring :=
  match s with
  | [] => []
  | c :: rest =>
      if UTF8.is_high_surrogate c then
        match rest with
        | d :: rest' =>
            if UTF8.is_low_surrogate d then c :: d :: quote_units rest'
            else unicode_escape c ++ quote_units rest
        | [] => unicode_escape c
        end
      else if UTF8.is_low_surrogate c then unicode_escape c ++ quote_units rest
      else quote_unit c ++ quote_units rest
  end.

Definition JSON_quote (s : jsstring) : jsstring := [34] ++ quote_units s ++ [34].

Fixpoint join (sep : jsstring) (parts : list jsstring) : jsstring :=
  match parts with
  | [] => []
  | [p] => p
  | p :: ps => p ++ sep ++ join sep ps
  end.

Fixpoint JSON_stringify (v : json) : jsstring :=
  match v with
  | JNull => js "null"
  | JBool true => js "true"
  | JBool false => js "false"
  | JNum m e => Number_toString m e
  | JStr s => JSON_quote s
  | JArr items => [91] ++ join [44] (List.map JSON_stringify items) ++ [93]
  | JObj props =>
      [123]
      ++ join [44] (List.map (fun kv => JSON_quote (fst kv) ++ [58] ++ JSON_stringify (snd kv)) props)
      ++ [125]
  end.

(** A [Record<string, string>] as a value. *)
Definition JRecord (o : object jsstring) : json :=
  JObj (List.map (fun kv => (fst kv, JStr (snd kv))) o).

(** ** [JSON.parse]

    The JSON grammar of ECMA-404, without a reviver: [None] stands for the
    [SyntaxError] that [JSON.parse] throws.  The members of an object are
    created in the order of the text with CreateDataProperty, so a later
    duplicate of a key overwrites the value of the earlier one. *)

Module JSONParse.

Definition is_ws (c : N) : bool :=
  (c =? 32) || (c =? 9) || (c =? 10) || (c =? 13).

Fixpoint skip_ws (s : jsstring) : jsstring :=
  match s with
  | c :: r => if is_ws c then skip_ws r else s
  | [] => []
  end.

Definition hex_value (c : N) : option N :=
  if is_digit c then Some (c - 48)
  else if (97 <=? c) && (c <=? 102) then Some (c - 87)
  else if (65 <=? c) && (c <=? 70) then Some (c - 55)
  else None.

Definition escape_char (e : N) : option N :=
  if (e =? 34) || (e =? 92) || (e =? 47) then Some e
  else if e =? 98 then Some 8
  else if e =? 102 then Some 12
  else if e =? 110 then Some 10
  else if e =? 114 then Some 13
  else if e =? 116 then Some 9
  else None.

(** The rest of a string after its opening quote. *)
Fixpoint parse_string (s acc : jsstring) : option (jsstring * jsstring) :=
  match s with
  | [] => None
  | c :: r =>
      if c =? 34 then Some (rev acc, r)
      else if c =? 92 then
        match r with
        | [] => None
        | e :: r1 =>
            if e =? 117 then
              match r1 with
              | h1 :: h2 :: h3 :: h4 :: r2 =>
                  match hex_value h1, hex_value h2, hex_value h3, hex_value h4 with
                  | Some a, Some b, Some c', Some d =>
                      parse_string r2 ((((a * 16 + b) * 16 + c') * 16 + d) :: acc)
                  | _, _, _, _ => None
                  end
              | _ => None
              end
            else
              match escape_char e with
              | Some x => parse_string r1 (x :: acc)
              | None => None
              end
        end
      else if c <? 32 then None
      else parse_string r (c :: acc)
  end.

Fixpoint take_digits (s : jsstring) : jsstring * jsstring :=
  match s with
  | c :: r =>
      if is_digit c then let (ds, rest) := take_digits r in (c :: ds, rest)
      else ([], s)
  | [] => ([], [])
  end.

(** int: a single zero, or a non-zero digit followed by digits *)
Definition parse_int (s : jsstring) : option (jsstring * jsstring) :=
  match s with
  | c :: r =>
      if c =? 48 then Some ([c], r)
      else if is_digit c then Some (take_digits s)
      else None
  | [] => None
  end.

Definition parse_frac (s : jsstring) : option (jsstring * jsstring) :=
  match s with
  | 46 :: r =>
      match take_digits r with
      | ([], _) => None
      | (ds, rest) => Some (ds, rest)
      end
  | _ => Some ([], s)
  end.

Definition parse_exp (s : jsstring) : option (Z * jsstring) :=
  match s with
  | c :: r =>
      if (c =? 101) || (c =? 69) then
        let (neg, r1) :=
          match r with
          | d :: r' => if d =? 45 then (true, r') else if d =? 43 then (false, r') else (false, r)
          | [] => (false, r)
          end in
        match take_digits r1 with
        | ([], _) => None
        | (ds, rest) =>
            Some ((if neg then - Z.of_N (dec_value ds) else Z.of_N (dec_value ds))%Z, rest)
        end
      else Some (0%Z, s)
  | [] => Some (0%Z, s)
  end.

Definition parse_number (s : jsstring) : option (json * jsstring) :=
  let (neg, s1) :=
    match s with
    | c :: r => if c =? 45 then (true, r) else (false, s)
    | [] => (false, s)
    end in
  match parse_int s1 with
  | None => None
  | Some (ip, s2) =>
      match parse_frac s2 with
      | None => None
      | Some (fd, s3) =>
          match parse_exp s3 with
          | None => None
          | Some (ex, s4) =>
              let m := Z.of_N (dec_value (ip ++ fd)) in
              Some (JNum (if neg then - m else m) (ex - Z.of_nat (length fd)), s4)
          end
      end
  end.

Fixpoint expect (lit s : jsstring) : option jsstring :=
  match lit, s with
  | [], _ => Some s
  | x :: lit', y :: s' => if x =? y then expect lit' s' else None
  | _ :: _, [] => None
  end.

Definition parse_literal (lit : jsstring) (v : json) (s : jsstring)
  : option (json * jsstring) :=
  match expect lit s with
  | Some r => Some (v, r)
  | None => None
  end.

Fixpoint parse_value (fuel : nat) (s : jsstring) : option (json * jsstring) :=
  match fuel with
  | O => None
  | S f =>
      match skip_ws s with
      | [] => None
      | c :: r =>
          if c =? 123 then
            match skip_ws r with
            | d :: r' => if d =? 125 then Some (JObj [], r') else parse_members f [] r
            | [] => None
            end
          else if c =? 91 then
            match skip_ws r with
            | d :: r' => if d =? 93 then Some (JArr [], r') else parse_elements f [] r
            | [] => None
            end
          else if c =? 34 then
            match parse_string r [] with
            | Some (str, r') => Some (JStr str, r')
            | None => None
            end
          else if c =? 116 then parse_literal (js "true") (JBool true) (c :: r)
          else if c =? 102 then parse_literal (js "false") (JBool false) (c :: r)
          else if c =? 110 then parse_literal (js "null") JNull (c :: r)
          else parse_number (c :: r)
      end
  end

with parse_elements (fuel : nat) (acc : list json) (s : jsstring)
  : option (json * jsstring) :=
  match fuel with
  | O => None
  | S f =>
      match parse_value f s with
      | None => None
      | Some (v, r) =>
          match skip_ws r with
          | c :: r' =>
              if c =? 44 then parse_elements f (v :: acc) r'
              else if c =? 93 then Some (JArr (rev (v :: acc)), r')
              else None
          | [] => None
          end
      end
  end

with parse_members (fuel : nat) (acc : object json) (s : jsstring)
  : option (json * jsstring) :=
  match fuel with
  | O => None
  | S f =>
      match skip_ws s with
      | q :: r =>
          if q =? 34 then
            match parse_string r [] with
            | None => None
            | Some (k, r1) =>
                match skip_ws r1 with
                | colon :: r2 =>
                    if colon =? 58 then
                      match parse_value f r2 with
                      | None => None
                      | Some (v, r3) =>
                          match skip_ws r3 with
                          | c :: r4 =>
                              if c =? 44 then parse_members f (obj_define k v acc) r4
                              else if c =? 125 then Some (JObj (obj_define k v acc), r4)
                              else None
                          | [] => None
                          end
                      end
                    else None
                | [] => None
                end
            end
          else None
      | [] => None
      end
  end.

(** Every call that passes less fuel on has read a character since the
    last but one such call, so twice the length of the text is enough. *)
Definition fuel_for (s : jsstring) : nat := 2 * length s + 2.

Definition JSON_parse (s : jsstring) : option json :=
  match parse_value (fuel_for s) s with
  | Some (v, r) => match skip_ws r with [] => Some v | _ => None end
  | None => None
  end.

End JSONParse.

Import JSONParse.

(** ** Values: property reads, ToBoolean and ToString *)

(** [value.name] for a name that the built-in prototypes do not define:
    [None] is the [TypeError] of reading a property of [null], [Some None]
    is [undefined]. *)
Definition get_member (v : json) (name : jsstring) : option (option json) :=
  match v with
  | JNull => None
  | JObj props => Some (obj_get props name)
  | _ => Some None
  end.

(** The double nearest to [m * 10^e] is zero: the number is zero, or at
    most half the least positive double, [2^-1075]. *)
Definition number_is_zero (m e : Z) : bool :=
  ((m =? 0) || ((e <? 0) && (Z.abs m * 2 ^ 1075 <=? 10 ^ (- e))))%Z.

(** ToBoolean *)
Definition truthy (v : json) : bool :=
  match v with
  | JNull => false
  | JBool b => b
  | JNum m e => negb (number_is_zero m e)
  | JStr s => match s with [] => false | _ :: _ => true end
  | JArr _ | JObj _ => true
  end.

Definition truthy_opt (x : option json) : bool :=
  match x with
  | Some v => truthy v
  | None => false
  end.

(** ToString, [None] for a [TypeError].  An array is its elements joined
    by commas, [null] counting as the empty string.  An object is
    [[object Object]]; one that owns a [toString] property, which is
    never a function here, cannot be converted. *)
Fixpoint ToString (v : json) : option jsstring :=
  match v with
  | JNull => Some (js "null")
  | JBool true => Some (js "true")
  | JBool false => Some (js "false")
  | JNum m e => Some (Number_toString m e)
  | JStr s => Some s
  | JArr items =>
      match
        (fix elements (l : list json) : option (list jsstring) :=
           match l with
           | [] => Some []
           | x :: l' =>
               match (match x with JNull => Some [] | _ => ToString x end),
                     elements l' with
               | Some s, Some ss => Some (s :: ss)
               | _, _ => None
               end
           end) items
      with
      | Some parts => Some (join (js ",") parts)
      | None => None
      end
  | JObj props =>
      if obj_has props (js "toString") then None else Some (js "[object Object]")
  end.

(** ToString of a value that may be [undefined] *)
Definition ToString_opt (x : option json) : option jsstring :=
  match x with
  | Some v => ToString v
  | None => Some (js "undefined")
  end.

(** ** The types of [src/types/index.ts] and of axios *)

Inductive Environment : Type := sandbox | production.

Record PaynowConfig : Type := {
  apiKey : jsstring;
  signatureKey : jsstring;
  environment : option Environment
}.

Module PaynowError.
Record t : Type := { message : jsstring; code : option jsstring; field : option jsstring }.
End PaynowError.

Record PaynowApiError : Type := { errors : list PaynowError.t }.

(** The two interfaces are shapes that a response body may or may not
    have; these are the bodies that have them. *)
Definition PaynowError_json (err : PaynowError.t) : json :=
  JObj ([(js "message", JStr (PaynowError.message err))]
        ++ match PaynowError.code err with
           | Some c => [(js "code", JStr c)]
           | None => []
           end
        ++ match PaynowError.field err with
           | Some f => [(js "field", JStr f)]
           | None => []
           end).

Definition PaynowApiError_json (body : PaynowApiError) : json :=
  JObj [(js "errors", JArr (List.map PaynowError_json (errors body)))].

(** The fields are copied from a response body of type [any]: each holds
    what the body had under that name, [None] for [undefined]. *)
Record PaymentResponse : Type := {
  paymentId : option json;
  redirectUrl : option json;
  status : option json
}.

(** [new Error(message)] *)
Record Error : Type := { message : jsstring }.

(** How a call ends: with a value, with a thrown [Error], or with a
    [TypeError] that the engine throws. *)
Inductive completion (A : Type) : Type :=
  | Return (a : A)
  | Throw (e : Error)
  | ThrowTypeError.
Arguments Return {A} a.
Arguments Throw {A} e.
Arguments ThrowTypeError {A}.

Module AxiosResponse.
Record t (T : Type) : Type := { status : N; data : T }.
Arguments status {T} _.
Arguments data {T} _.
End AxiosResponse.

(** An Axios error: the response is missing when none arrived.  Its body
    is what the server sent, any value; the cast to
    [AxiosError<PaynowApiError>] checks nothing. *)
Module AxiosError.
Record t : Type := {
  response : option (AxiosResponse.t json);
  code : option jsstring;
  message : jsstring
}.
End AxiosError.

(** What a [catch] clause receives. *)
Inductive thrown : Type :=
  | IsAxiosError (e : AxiosError.t)
  | NotAxiosError (description : jsstring).

Record AxiosInstance : Type := {
  baseURL : jsstring;
  headers : object jsstring;
  timeout : N
}.

Inductive Method : Type := GET | POST.

(** A call [apiClient.get(url)] or [apiClient.post(url, data, {headers})]. *)
Record AxiosCall : Type := {
  call_instance : AxiosInstance;
  call_method : Method;
  call_url : jsstring;
  call_data : option json;
  call_headers : object jsstring
}.

(** How the awaited promise settles.  With the default [validateStatus]
    axios resolves the responses with a 2xx status and rejects the others
    with an [AxiosError]. *)
Inductive outcome : Type :=
  | Resolved (r : AxiosResponse.t json)
  | Rejected (e : thrown).

(** What the client does not own: the values [uuidv4()] returns, call
    after call, the number of calls made so far, the calls issued, and the
    way the network settles a call. *)
Record World : Type := {
  uuids : nat -> jsstring;
  uuid_calls : nat;
  network : AxiosCall -> outcome;
  issued : list AxiosCall
}.

Definition uuidv4 (w : World) : jsstring * World :=
  (uuids w (uuid_calls w),
   {| uuids := uuids w; uuid_calls := S (uuid_calls w);
      network := network w; issued := issued w |}).

Definition axios_request (call : AxiosCall) (w : World) : outcome * World :=
  (network w call,
   {| uuids := uuids w; uuid_calls := uuid_calls w;
      network := network w; issued := issued w ++ [call] |}).

(** [await instance.post(url, data, {headers})] *)
Definition axios_post (instance : AxiosInstance) (url : jsstring) (data : json)
    (request_headers : object jsstring) (w : World) : outcome * World :=
  axios_request
    {| call_instance := instance; call_method := POST; call_url := url;
       call_data := Some data; call_headers := request_headers |} w.

(** [await instance.get(url)] *)
Definition axios_get (instance : AxiosInstance) (url : jsstring) (w : World)
  : outcome * World :=
  axios_request
    {| call_instance := instance; call_method := GET; call_url := url;
       call_data := None; call_headers := [] |} w.

(** ** The state of the two classes *)

Record SignatureCalculator : Type := { this_signatureKey : jsstring }.

Record PaynowClient : Type := {
  this_apiClient : AxiosInstance;
  this_apiKey : jsstring;
  this_signatureCalculator : SignatureCalculator;
  this_environment : Environment
}.

(** ** The methods of [PaynowClient] that both generations share *)

Definition constructor (config : PaynowConfig) : PaynowClient :=
  let env := match environment config with Some e => e | None => sandbox end in
  let base :=
    match env with
    | production => js "https://api.paynow.pl/v3"
    | sandbox => js "https://api.sandbox.paynow.pl/v3"
    end in
  {| this_apiKey := apiKey config;
     this_environment := env;
     this_signatureCalculator := {| this_signatureKey := signatureKey config |};
     this_apiClient :=
       {| baseURL := base;
          headers := [(js "Content-Type", js "application/json");
                      (js "Api-Key", apiKey config)];
          timeout := 30000 |} |}.

(** [`${err.field ? `${err.field}: ` : ''}${err.message}`] for an entry
    of the error list, which is any value: [None] when reading a property
    of a [null] entry or converting a value to a string throws. *)
Definition render_entry (err : json) : option jsstring :=
  match get_member err (js "field"), get_member err (js "message") with
  | Some field, Some message =>
      match (if truthy_opt field
             then match ToString_opt field with
                  | Some f => Some (f ++ js ": ")
                  | None => None
                  end
             else Some []),
            ToString_opt message with
      | Some prefix, Some m => Some (prefix ++ m)
      | _, _ => None
      end
  | _, _ => None
  end.

(** [errors.map(err => ...)] on an array *)
Fixpoint render_entries (items : list json) : option (list jsstring) :=
  match items with
  | [] => Some []
  | err :: rest =>
      match render_entry err, render_entries rest with
      | Some s, Some ss => Some (s :: ss)
      | _, _ => None
      end
  end.

(** [axiosError.response?.data?.errors], [None] for [undefined] *)
Definition response_errors (e : AxiosError.t) : option json :=
  match AxiosError.response e with
  | Some r =>
      match get_member (AxiosResponse.data r) (js "errors") with
      | Some x => x
      | None => None
      end
  | None => None
  end.

(** [axiosError.response?.status] *)
Definition response_status (e : AxiosError.t) : option N :=
  match AxiosError.response e with
  | Some r => Some (AxiosResponse.status r)
  | None => None
  end.

Definition code_is (e : AxiosError.t) (c : jsstring) : bool :=
  match AxiosError.code e with
  | Some c' => str_eqb c' c
  | None => false
  end.

(** [handleError] returns an [Error], or throws a [TypeError] itself
    ([None]): only an array has a [map] to call, and the callback may
    throw on an entry.  An array is truthy even when empty; a status is
    truthy unless zero. *)
Definition handleError (error : thrown) : option Error :=
  match error with
  | IsAxiosError axiosError =>
      if truthy_opt (response_errors axiosError) then
        match response_errors axiosError with
        | Some (JArr items) =>
            match render_entries items with
            | Some rendered =>
                let errorMessages := join (js ", ") rendered in
                Some {| message := js "Paynow API Error: " ++ errorMessages |}
            | None => None
            end
        | _ => None
        end
      else
        match response_status axiosError with
        | Some (Npos p) =>
            Some {| message := js "Paynow API Error: HTTP " ++ N_toString (Npos p) |}
        | _ =>
            if code_is axiosError (js "ECONNABORTED")
            then Some {| message := js "Paynow API Error: Request timeout" |}
            else Some {| message := js "Paynow API Error: " ++ AxiosError.message axiosError |}
        end
  | NotAxiosError _ => Some {| message := js "Unexpected error occurred" |}
  end.

(** [throw this.handleError(error)] in a [catch] clause *)
Definition throw_handled {A : Type} (error : thrown) : completion A :=
  match handleError error with
  | Some e => Throw e
  | None => ThrowTypeError
  end.

Definition null_read : thrown :=
  NotAxiosError (js "TypeError: Cannot read properties of null").

Definition getPaymentStatus (this : PaynowClient) (paymentId : jsstring) (w : World)
  : completion json * World :=
  let (settled, w1) := axios_get (this_apiClient this) (js "/payments/" ++ paymentId) w in
  match settled with
  | Resolved response => (Return (AxiosResponse.data response), w1)
  | Rejected error => (throw_handled error, w1)
  end.

Definition parseNotification (notificationData : jsstring) : completion json :=
  match JSON_parse notificationData with
  | Some v => Return v
  | None => Throw {| message := js "Invalid notification data format" |}
  end.

(** ** The first generation

    [SignatureCalculator] of [signatureCalculator.ts] lines 3-31 and
    [PaynowClient] of [paymentClient.ts] lines 13-121. *)
Module V1.

Definition calculateSignature (this : SignatureCalculator) (data : jsstring) : jsstring :=
  hmac_sha256_base64 (this_signatureKey this) data.

Definition verifySignature (this : SignatureCalculator)
    (receivedSignature data : jsstring) : bool :=
  let calculatedSignature := calculateSignature this data in
  str_eqb calculatedSignature receivedSignature.

Definition createPayment (this : PaynowClient) (paymentRequest : json) (w : World)
  : completion PaymentResponse * World :=
  let (idempotencyKey, w1) := uuidv4 w in
  let requestData := JSON_stringify paymentRequest in
  let signature := calculateSignature (this_signatureCalculator this) requestData in
  let (settled, w2) :=
    axios_post (this_apiClient this) (js "/payments") paymentRequest
      [(js "Signature", signature); (js "Idempotency-Key", idempotencyKey)] w1 in
  match settled with
  | Resolved response =>
      let data := AxiosResponse.data response in
      match get_member data (js "paymentId"),
            get_member data (js "redirectUrl"),
            get_member data (js "status") with
      | Some p, Some r, Some s =>
          (Return {| paymentId := p; redirectUrl := r; status := s |}, w2)
      | _, _, _ => (throw_handled null_read, w2)
      end
  | Rejected error => (throw_handled error, w2)
  end.

Definition verifyNotification (this : PaynowClient)
    (signature notificationData : jsstring) : bool :=
  verifySignature (this_signatureCalculator this) signature notificationData.

End V1.

(** ** The second generation

    [SignatureCalculator] of [signatureCalculator.ts] lines 33-97 and
    [PaynowClient] of lines 125-260. *)
Module V2.

(** [Object.keys(o).sort().forEach(key => { sorted[key] = o[key]; })]
    on a fresh [sorted = {}].  [o[key]] is there for every key of [o]; a
    missing one would store [undefined], which [JSON.stringify] leaves
    out. *)
Definition sort_record (o : object jsstring) : object jsstring :=
  fold_left
    (fun sorted key =>
       match obj_get o key with
       | Some v => obj_set key v sorted
       | None => sorted
       end)
    (Array_sort (Object_keys o)) [].

Definition payload (headers parameters : object jsstring) (body : jsstring) : json :=
  JObj [(js "headers", JRecord headers);
        (js "parameters", JRecord parameters);
        (js "body", JStr body)].

(** [parameters] is [None] when the caller passes [undefined], and then
    takes its default [{}]. *)
Definition calculateSignature (this : SignatureCalculator)
    (headers : object jsstring) (parameters : option (object jsstring))
    (body : jsstring) : jsstring :=
  let parameters := match parameters with Some p => p | None => [] end in
  let sortedHeaders := sort_record headers in
  let sortedParameters := sort_record parameters in
  let payloadString := JSON_stringify (payload sortedHeaders sortedParameters body) in
  hmac_sha256_base64 (this_signatureKey this) payloadString.

Definition calculateSignatureSimple (this : SignatureCalculator) (data : jsstring) : jsstring :=
  hmac_sha256_base64 (this_signatureKey this) data.

Definition verifySignature (this : SignatureCalculator)
    (receivedSignature data : jsstring) : bool :=
  let calculatedSignature := calculateSignatureSimple this data in
  str_eqb calculatedSignature receivedSignature.

Definition createPayment (this : PaynowClient) (paymentRequest : json) (w : World)
  : completion PaymentResponse * World :=
  let (idempotencyKey, w1) := uuidv4 w in
  let requestData := JSON_stringify paymentRequest in
  let signatureHeaders := [(js "Api-Key", this_apiKey this);
                           (js "Idempotency-Key", idempotencyKey)] in
  let signature :=
    calculateSignature (this_signatureCalculator this)
      signatureHeaders (Some []) requestData in
  let (settled, w2) :=
    axios_post (this_apiClient this) (js "/payments") paymentRequest
      [(js "Signature", signature); (js "Idempotency-Key", idempotencyKey)] w1 in
  match settled with
  | Resolved response =>
      let data := AxiosResponse.data response in
      match get_member data (js "paymentId"),
            get_member data (js "redirectUrl"),
            get_member data (js "status") with
      | Some p, Some r, Some s =>
          (Return {| paymentId := p; redirectUrl := r; status := s |}, w2)
      | _, _, _ => (throw_handled null_read, w2)
      end
  | Rejected error => (throw_handled error, w2)
  end.

Definition verifyNotification (this : PaynowClient)
    (signature notificationData : jsstring) : bool :=
  verifySignature (this_signatureCalculator this) signature notificationData.

End V2.

(** ** Helpers of the statements and proofs *)

Definition key_eq_dec (a b : jsstring) : {a = b} + {a <> b} :=
  List.list_eq_dec N.eq_dec a b.

Definition key_in_dec (k : jsstring) (l : list jsstring) : {In k l} + {~ In k l} :=
  List.in_dec key_eq_dec k l.

(** A key that is neither an array index nor [__proto__]. *)
Definition plain_key (k : jsstring) : Prop :=
  array_index k = None /\ k <> proto_key.

(** The properties of a record for the keys [ks], in the order of [ks]. *)
Definition entries_of (o : object jsstring) (ks : list jsstring) : object jsstring :=
  flat_map (fun k => match obj_get o k with Some v => [(k, v)] | None => [] end) ks.

(** What it means for the fuel of the parser to be enough: a parse that
    succeeds reads at least one character, and succeeds with any fuel of
    at least twice the number of characters it reads. *)
Definition enough_value (f : nat) : Prop :=
  forall s v r, parse_value f s = Some (v, r) ->
    (length r < length s)%nat
    /\ forall g, (2 * (length s - length r) <= g + 1)%nat -> parse_value g s = Some (v, r).

Definition enough_elements (f : nat) : Prop :=
  forall acc s v r, parse_elements f acc s = Some (v, r) ->
    (length r < length s)%nat
    /\ forall g, (2 * (length s - length r) <= g + 2)%nat ->
                 parse_elements g acc s = Some (v, r).

Definition enough_members (f : nat) : Prop :=
  forall acc s v r, parse_members f acc s = Some (v, r) ->
    (length r < length s)%nat
    /\ forall g, (2 * (length s - length r) <= g + 2)%nat ->
                 parse_members g acc s = Some (v, r).

(** ** Fixtures: the values of the repository's tests and of the
    specification's scenarios *)

Definition test_config : PaynowConfig :=
  {| apiKey := js "test-api-key";
     signatureKey := js "test-signature-key";
     environment := Some sandbox |}.

Definition test_client : PaynowClient := constructor test_config.

Definition test_calculator : SignatureCalculator :=
  {| this_signatureKey := js "test-key" |}.

Definition test_notification : jsstring :=
  jsq "{'paymentId':'TEST-123','status':'CONFIRMED'}".

Definition test_request : json :=
  JObj [(js "amount", JNum 1000 0);
        (js "externalId", JStr (js "order-123"));
        (js "description", JStr (js "Order 123"));
        (js "buyer", JObj [(js "email", JStr (js "test@example.com"))])].

Definition test_uuid : jsstring := js "3b241101-e2bb-4255-8caf-4136c566a962".

Definition world_with (settled : outcome) : World :=
  {| uuids := fun _ => test_uuid; uuid_calls := 0;
     network := fun _ => settled; issued := [] |}.

Definition created_body : json :=
  JObj [(js "paymentId", JStr (js "P1"));
        (js "redirectUrl", JStr (js "https://paywall.example/P1"));
        (js "status", JStr (js "NEW"));
        (js "extra", JBool true)].

Definition created : outcome :=
  Resolved {| AxiosResponse.status := 201; AxiosResponse.data := created_body |}.

Definition bad_request (errs : list PaynowError.t) : outcome :=
  Rejected (IsAxiosError
    {| AxiosError.response :=
         Some {| AxiosResponse.status := 400;
                 AxiosResponse.data := PaynowApiError_json {| errors := errs |} |};
       AxiosError.code := Some (js "ERR_BAD_REQUEST");
       AxiosError.message := js "Request failed with status code 400" |}).

(** [s.includes(sub)] *)
Fixpoint starts_with (sub s : jsstring) : bool :=
  match sub, s with
  | [], _ => true
  | x :: sub', y :: s' => (x =? y) && starts_with sub' s'
  | _ :: _, [] => false
  end.

Fixpoint includes (sub s : jsstring) : bool :=
  starts_with sub s || match s with [] => false | _ :: s' => includes sub s' end.

Definition headers_zam : object jsstring :=
  [(js "Z-Header", js "z"); (js "A-Header", js "a"); (js "M-Header", js "m")].

Definition headers_amz : object jsstring :=
  [(js "A-Header", js "a"); (js "M-Header", js "m"); (js "Z-Header", js "z")].

Definition params_ba : object jsstring := [(js "b", js "2"); (js "a", js "1")].

Definition params_ab : object jsstring := [(js "a", js "1"); (js "b", js "2")].

(** ** The calls the client issues *)

(** The call [apiClient.post('/payments', paymentRequest, {headers})]. *)
Definition post_payments (this : PaynowClient) (paymentRequest : json)
    (signature idempotencyKey : jsstring) : AxiosCall :=
  {| call_instance := this_apiClient this;
     call_method := POST;
     call_url := js "/payments";
     call_data := Some paymentRequest;
     call_headers := [(js "Signature", signature);
                      (js "Idempotency-Key", idempotencyKey)] |}.

(** What [createPayment] completes with, as a function of the way the
    awaited call settles. *)
Definition createPayment_settled (settled : outcome) : completion PaymentResponse :=
  match settled with
  | Rejected error => throw_handled error
  | Resolved response =>
      let data := AxiosResponse.data response in
      match get_member data (js "paymentId"),
            get_member data (js "redirectUrl"),
            get_member data (js "status") with
      | Some p, Some r, Some s =>
          Return {| paymentId := p; redirectUrl := r; status := s |}
      | _, _, _ => throw_handled null_read
      end
  end.

Definition status_call (this : PaynowClient) (paymentId : jsstring) : AxiosCall :=
  {| call_instance := this_apiClient this;
     call_method := GET;
     call_url := js "/payments/" ++ paymentId;
     call_data := None;
     call_headers := [] |}.

(** The call of the second generation: the signature covers the two
    headers, no parameters, and the serialized request. *)
Definition payment_call2 (this : PaynowClient) (paymentRequest : json) (w : World) : AxiosCall :=
  let idempotencyKey := uuids w (uuid_calls w) in
  post_payments this paymentRequest
    (V2.calculateSignature (this_signatureCalculator this)
       [(js "Api-Key", this_apiKey this); (js "Idempotency-Key", idempotencyKey)]
       (Some []) (JSON_stringify paymentRequest))
    idempotencyKey.

(** The call of the first generation: the signature covers the serialized
    request alone. *)
Definition payment_call1 (this : PaynowClient) (paymentRequest : json) (w : World) : AxiosCall :=
  let idempotencyKey := uuids w (uuid_calls w) in
  post_payments this paymentRequest
    (V1.calculateSignature (this_signatureCalculator this) (JSON_stringify paymentRequest))
    idempotencyKey.

(** A parameter map whose keys are array indices. *)
Definition index_parameters : object jsstring := [(js "10", js "a"); (js "9", js "b")].

(** What [render_entry] gives for an entry of the shape [PaynowError]:
    the field, when it is there and not empty, a colon and a space, then
    the message. *)
Definition render_error (err : PaynowError.t) : jsstring :=
  (match PaynowError.field err with
   | Some (c :: f) => (c :: f) ++ js ": "
   | _ => []
   end) ++ PaynowError.message err.

(** An entry of the error list reads as [err]: its message is the string
    of [err], its field is the string of [err] or missing as in [err].
    [handleError] reads nothing else of an entry. *)
Definition reads_as (item : json) (err : PaynowError.t) : Prop :=
  get_member item (js "message") = Some (Some (JStr (PaynowError.message err)))
  /\ get_member item (js "field") = Some (option_map JStr (PaynowError.field err)).

(** The rendering of an entry that the words 'field: message' describe. *)
Definition spec_render_error (err : PaynowError.t) : jsstring :=
  (match PaynowError.field err with Some f => f | None => [] end)
  ++ js ": " ++ PaynowError.message err.

Definition no_field_errors : list PaynowError.t :=
  [{| PaynowError.message := js "Invalid request";
      PaynowError.code := Some (js "VALIDATION_ERROR");
      PaynowError.field := None |}].

Definition amount_errors : list PaynowError.t :=
  [{| PaynowError.message := js "must be positive";
      PaynowError.code := None;
      PaynowError.field := Some (js "amount") |}].

(** The shape the specification requires of a notification. *)
Definition spec_required_fields : list jsstring :=
  [js "paymentId"; js "externalId"; js "status"; js "modifiedAt"].

Definition spec_has_required_fields (v : json) : bool :=
  match v with
  | JObj props => forallb (obj_has props) spec_required_fields
  | _ => false
  end.

(** [data.name] where [data] is not [null]. *)
Definition member (v : json) (name : jsstring) : option json :=
  match v with
  | JObj props => obj_get props name
  | _ => None
  end.

(** * Properties *)

(** ** The primitives on published test vectors *)

Example sha256_constants :
  length SHA256.K = 64%nat
  /\ firstn 2 SHA256.K = [0x428a2f98; 0x71374491]
  /\ skipn 62 SHA256.K = [0xbef9a3f7; 0xc67178f2]
  /\ firstn 2 SHA256.H0 = [0x6a09e667; 0xbb67ae85]
  /\ skipn 6 SHA256.H0 = [0x1f83d9ab; 0x5be0cd19].
Proof. vm_compute. repeat split. Qed.

Example sha256_abc :
  hex (SHA256.sha256 (js "abc"))
  = js "ba7816bf8f01cfea414140de5dae2223b00361a396177a9cb410ff61f20015ad".
Proof. vm_compute. reflexivity. Qed.

Example sha256_empty :
  hex (SHA256.sha256 [])
  = js "e3b0c44298fc1c149afbf4c8996fb92427ae41e4649b934ca495991b7852b855".
Proof. vm_compute. reflexivity. Qed.

Example sha256_two_blocks :
  hex (SHA256.sha256 (js "abcdbcdecdefdefgefghfghighijhijkijkljklmklmnlmnomnopnopq"))
  = js "248d6a61d20638b8e5c026930c3e6039a33ce45964ff2167f6ecedd419db06c1".
Proof. vm_compute. reflexivity. Qed.

(** RFC 4231, test cases 2 and 6 (a key longer than one block). *)
Example hmac_rfc4231_2 :
  hex (HMAC.hmac_sha256 (js "Jefe") (js "what do ya want for nothing?"))
  = js "5bdcc146bf60754e6a042426089575c75a003f089d2739839dec58b964ec3843".
Proof. vm_compute. reflexivity. Qed.

Example hmac_rfc4231_6 :
  hex (HMAC.hmac_sha256 (repeat 0xaa 131)
         (js "Test Using Larger Than Block-Size Key - Hash Key First"))
  = js "60e431591ee0b67f0d8a26aacbf5b77f8e0bc6213728c5140546040f0ee37f54".
Proof. vm_compute. reflexivity. Qed.

(** RFC 4648, section 10. *)
Example base64_foobar :
  List.map Base64.encode [js ""; js "f"; js "fo"; js "foo"; js "foob"; js "fooba"; js "foobar"]
  = [js ""; js "Zg=="; js "Zm8="; js "Zm9v"; js "Zm9vYg=="; js "Zm9vYmE="; js "Zm9vYmFy"].
Proof. vm_compute. reflexivity. Qed.

(** U+00F3 (two bytes), U+20AC (three bytes), U+1F600 as a surrogate pair
    (four bytes), and a lone surrogate. *)
Example utf8_samples :
  hex (UTF8.encode [0xF3; 0x20AC; 0xD83D; 0xDE00; 0xD83D])
  = js "c3b3e282acf09f9880efbfbd".
Proof. vm_compute. reflexivity. Qed.

Example N_toString_samples :
  List.map N_toString [0; 7; 10; 400; 4294967294]
  = [js "0"; js "7"; js "10"; js "400"; js "4294967294"].
Proof. vm_compute. reflexivity. Qed.

Example Array_sort_headers :
  Array_sort [js "Z-Header"; js "A-Header"; js "M-Header"; js "a"; js "A"; js "10"; js "9"; js ""]
  = [js ""; js "10"; js "9"; js "A"; js "A-Header"; js "M-Header"; js "Z-Header"; js "a"].
Proof. vm_compute. reflexivity. Qed.

Example JSON_stringify_sample :
  JSON_stringify
    (JObj [(js "amount", JNum 1000 0); (js "externalId", JStr (js "order-123"));
           (js "ratio", JNum (-125) (-2)); (js "small", JNum 5 (-3));
           (js "buyer", JObj [(js "email", JStr (jsq "a'b\c"))]);
           (js "items", JArr [JNull; JBool true; JStr [10; 0xD83D; 0xDE00; 0xDE00]])])
  = jsq "{'amount':1000,'externalId':'order-123','ratio':-1.25,'small':0.005,'buyer':{'email':'a\'b\\c'},'items':[null,true,'\n"
    ++ [0xD83D; 0xDE00] ++ jsq "\ude00']}".
Proof. vm_compute. reflexivity. Qed.

Example JSON_parse_accepts :
  List.map JSON_parse
    [jsq "{}"; jsq " [ ] "; jsq "null"; jsq "-0"; jsq "12.50e1"; jsq "'aA\n\/'";
     jsq "[[[[]]],{'a':[{}]}]";
     jsq "{'b':1,'10':2,'a':{'x':true},'9':false,'b':'again','__proto__':null}"]
  = [Some (JObj []); Some (JArr []); Some JNull; Some (JNum 0 0); Some (JNum 1250 (-1));
     Some (JStr [97; 65; 10; 47]);
     Some (JArr [JArr [JArr [JArr []]]; JObj [(js "a", JArr [JObj []])]]);
     Some (JObj [(js "9", JBool false); (js "10", JNum 2 0); (js "b", JStr (js "again"));
                 (js "a", JObj [(js "x", JBool true)]); (js "__proto__", JNull)])].
Proof. vm_compute. reflexivity. Qed.

Example JSON_parse_rejects :
  List.map JSON_parse
    [js "not json"; js ""; js "   "; js "{"; js "[1,]"; jsq "{'a':1,}"; jsq "{a:1}";
     js "01"; js "1."; js ".5"; js "+1"; js "1e"; js "nul"; js "nulll"; js "{} x";
     jsq "'a"; [34; 10; 34]; jsq "'\x'"; jsq "'\u12g4'"; js "[1 2]"; js "'a'"; js "undefined"]
  = repeat None 22.
Proof. vm_compute. reflexivity. Qed.

(** ** Strings: equality and order *)

Lemma str_eqb_refl (a : jsstring) : str_eqb a a = true.
Proof. induction a as [|x a IH]; simpl; [reflexivity|]. now rewrite N.eqb_refl. Qed.

Lemma str_eqb_eq (a b : jsstring) : str_eqb a b = true <-> a = b.
Proof.
  split; [|intros ->; apply str_eqb_refl].
  revert b; induction a as [|x a IH]; intros [|y b]; simpl; try discriminate; auto.
  intros H. apply andb_prop in H as [Hx Hr].
  apply N.eqb_eq in Hx. apply IH in Hr. congruence.
Qed.

Lemma str_eqb_neq (a b : jsstring) : str_eqb a b = false <-> a <> b.
Proof.
  rewrite <- str_eqb_eq. destruct (str_eqb a b); split; congruence.
Qed.

Ltac cases_ltb :=
  repeat match goal with
         | |- context [N.ltb ?x ?y] => destruct (N.ltb_spec x y)
         | H : context [N.ltb ?x ?y] |- _ => destruct (N.ltb_spec x y)
         end.

Lemma str_ltb_irrefl (a : jsstring) : str_ltb a a = false.
Proof. induction a as [|x a IH]; simpl; [reflexivity|]. cases_ltb; auto; lia. Qed.

Lemma str_ltb_asym (a b : jsstring) : str_ltb a b = true -> str_ltb b a = false.
Proof.
  revert b; induction a as [|x a IH]; intros [|y b]; simpl; auto; try discriminate.
  cases_ltb; auto; try discriminate; lia.
Qed.

Lemma str_ltb_trans (a b c : jsstring) :
  str_ltb a b = true -> str_ltb b c = true -> str_ltb a c = true.
Proof.
  revert b c; induction a as [|x a IH]; intros [|y b] [|z c]; simpl; auto; try discriminate.
  cases_ltb; auto; try discriminate; try lia.
  apply IH.
Qed.

Lemma str_ltb_connex (a b : jsstring) :
  str_ltb a b = false -> str_ltb b a = false -> a = b.
Proof.
  revert b; induction a as [|x a IH]; intros [|y b]; simpl; auto; try discriminate.
  cases_ltb; try discriminate; try lia.
  intros Ha Hb. assert (x = y) by lia. subst. f_equal. auto.
Qed.

Lemma str_ltb_le_trans (a b c : jsstring) :
  str_ltb b a = false -> str_ltb c b = false -> str_ltb c a = false.
Proof.
  intros Hab Hbc.
  destruct (str_ltb c a) eqn:Hca; [|reflexivity].
  destruct (str_ltb a b) eqn:E.
  - rewrite (str_ltb_trans c a b Hca E) in Hbc. discriminate.
  - rewrite (str_ltb_connex a b E Hab) in Hca. congruence.
Qed.

#[global] Instance str_le_total : Total str_le.
Proof.
  intros a b. unfold str_le.
  destruct (str_ltb b a) eqn:E; [right; now apply str_ltb_asym | now left].
Qed.

#[global] Instance str_le_trans : Transitive str_le.
Proof. intros a b c. unfold str_le. apply str_ltb_le_trans. Qed.

#[global] Instance str_le_antisym : AntiSymm (=) str_le.
Proof. intros a b Hab Hba. unfold str_le in *. now apply str_ltb_connex. Qed.

(** [sort] returns the elements it was given, in ascending order, whatever
    order they came in. *)
Lemma Array_sort_sorted (l : list jsstring) : Sorted str_le (Array_sort l).
Proof. apply Sorted_merge_sort, _. Qed.

Lemma Array_sort_perm (l : list jsstring) : Array_sort l ≡ₚ l.
Proof. apply merge_sort_Permutation. Qed.

Lemma Array_sort_order_independent (l1 l2 : list jsstring) :
  l1 ≡ₚ l2 -> Array_sort l1 = Array_sort l2.
Proof.
  intros H. apply (Sorted_unique str_le); try apply Array_sort_sorted.
  now rewrite !Array_sort_perm.
Qed.

(** ** Objects: lookup *)

Section ObjectFacts.
Context {V : Type}.
Implicit Types (o : object V) (k : jsstring) (v : V).

Lemma obj_get_Some_In o k v : obj_get o k = Some v -> In (k, v) o.
Proof.
  induction o as [|[k' v'] o IH]; simpl; [discriminate|].
  destruct (str_eqb k' k) eqn:E.
  - apply str_eqb_eq in E. intros [= ->]. left. congruence.
  - intros H. right. auto.
Qed.

Lemma obj_get_None o k : obj_get o k = None <-> ~ In k (Object_keys o).
Proof.
  induction o as [|[k' v'] o IH]; simpl; [tauto|].
  destruct (str_eqb k' k) eqn:E.
  - apply str_eqb_eq in E. split; [discriminate | intros H; exfalso; auto].
  - apply str_eqb_neq in E. rewrite IH. tauto.
Qed.

Lemma obj_has_true o k : obj_has o k = true <-> In k (Object_keys o).
Proof.
  unfold obj_has. pose proof (obj_get_None o k) as H.
  destruct (obj_get o k).
  - split; [|reflexivity]. intros _.
    destruct (key_in_dec k (Object_keys o)) as [Hin|Hin]; [exact Hin|].
    apply H in Hin. discriminate.
  - split; [discriminate|]. intros Hin. exfalso. now apply (proj1 H).
Qed.

Lemma obj_has_false o k : obj_has o k = false <-> ~ In k (Object_keys o).
Proof.
  rewrite <- obj_has_true. destruct (obj_has o k); split; congruence.
Qed.

Lemma obj_get_In o k v :
  List.NoDup (Object_keys o) -> In (k, v) o -> obj_get o k = Some v.
Proof.
  induction o as [|[k' v'] o IH]; simpl; [tauto|].
  intros Hnd Hin. apply NoDup_cons_iff in Hnd as [Hk Hnd].
  destruct Hin as [[= -> ->]|Hin].
  - now rewrite str_eqb_refl.
  - destruct (str_eqb k' k) eqn:E; [|auto].
    apply str_eqb_eq in E; subst. exfalso. apply Hk.
    change k with (fst (k, v)). now apply in_map.
Qed.

(** Two objects with the same properties answer every lookup alike. *)
Lemma obj_get_perm o1 o2 k :
  List.NoDup (Object_keys o1) -> o1 ≡ₚ o2 -> obj_get o1 k = obj_get o2 k.
Proof.
  intros Hnd Hp.
  assert (Hnd2 : List.NoDup (Object_keys o2)).
  { eapply Permutation_NoDup; [|exact Hnd]. now apply Permutation_map. }
  destruct (obj_get o1 k) as [v|] eqn:E1.
  - symmetry. apply obj_get_In; [exact Hnd2|].
    eapply Permutation_in; [exact Hp|]. now apply obj_get_Some_In.
  - destruct (obj_get o2 k) as [v|] eqn:E2; [|reflexivity].
    apply obj_get_Some_In in E2.
    apply (Permutation_in _ (Permutation_sym Hp)) in E2.
    apply obj_get_In in E2; [congruence | exact Hnd].
Qed.

Lemma Object_keys_app o1 o2 :
  Object_keys (o1 ++ o2) = Object_keys o1 ++ Object_keys o2.
Proof. apply map_app. Qed.

Lemma obj_get_app o1 o2 k :
  obj_get (o1 ++ o2) k
  = match obj_get o1 k with Some v => Some v | None => obj_get o2 k end.
Proof.
  induction o1 as [|[k' v'] o1 IH]; simpl; [reflexivity|].
  now destruct (str_eqb k' k).
Qed.

End ObjectFacts.

Lemma fold_left_ext {A B : Type} (f g : A -> B -> A) (l : list B) (a : A) :
  (forall x y, f x y = g x y) -> fold_left f l a = fold_left g l a.
Proof.
  intros H. revert a. induction l as [|y l IH]; intros a; simpl; [reflexivity|].
  now rewrite H, IH.
Qed.

(** ** The sorting of a record *)

(** The sorted copy does not depend on the order in which the properties
    of the record were created. *)
Lemma sort_record_order_independent (o1 o2 : object jsstring) :
  List.NoDup (Object_keys o1) -> o1 ≡ₚ o2 -> V2.sort_record o1 = V2.sort_record o2.
Proof.
  intros Hnd Hp. unfold V2.sort_record.
  rewrite (Array_sort_order_independent (Object_keys o1) (Object_keys o2))
    by now apply Permutation_map.
  apply fold_left_ext. intros sorted key.
  now rewrite (obj_get_perm o1 o2 key Hnd Hp).
Qed.

(** A plain key that the object does not own yet is created behind the
    others. *)
Lemma obj_set_plain (o : object jsstring) (k v : jsstring) :
  plain_key k -> ~ In k (Object_keys o) -> obj_set k v o = o ++ [(k, v)].
Proof.
  intros [Hidx Hproto] Hin. unfold obj_set, obj_define.
  apply obj_has_false in Hin. rewrite Hin.
  apply str_eqb_neq in Hproto. rewrite Hproto, Hidx. reflexivity.
Qed.

Lemma sort_record_fold (o : object jsstring) (ks : list jsstring) (acc : object jsstring) :
  List.NoDup ks ->
  Forall plain_key ks ->
  (forall k, In k ks -> ~ In k (Object_keys acc)) ->
  fold_left
    (fun sorted key =>
       match obj_get o key with
       | Some v => obj_set key v sorted
       | None => sorted
       end) ks acc
  = acc ++ entries_of o ks.
Proof.
  revert acc. induction ks as [|k ks IH]; intros acc Hnd Hplain Hfresh; simpl.
  - now rewrite app_nil_r.
  - apply NoDup_cons_iff in Hnd as [Hk Hnd].
    apply Forall_cons_iff in Hplain as [Hpk Hplain].
    destruct (obj_get o k) as [v|] eqn:E.
    + rewrite obj_set_plain by (auto; apply Hfresh; now left).
      rewrite IH; auto.
      * now rewrite <- app_assoc.
      * intros k' Hk'. rewrite Object_keys_app, in_app_iff. simpl.
        intros [H|[H|[]]]; [revert H; apply Hfresh; now right | congruence].
    + rewrite IH; auto. intros k' Hk'. apply Hfresh. now right.
Qed.

Lemma entries_of_keys (o : object jsstring) (ks : list jsstring) :
  (forall k, In k ks -> In k (Object_keys o)) ->
  Object_keys (entries_of o ks) = ks.
Proof.
  induction ks as [|k ks IH]; intros H; simpl; [reflexivity|].
  destruct (obj_get o k) as [v|] eqn:E.
  - simpl. f_equal. apply IH. intros; apply H; now right.
  - apply obj_get_None in E. exfalso. apply E, H. now left.
Qed.

Lemma entries_of_get (o : object jsstring) (ks : list jsstring) (k : jsstring) :
  In k ks -> obj_get (entries_of o ks) k = obj_get o k.
Proof.
  induction ks as [|k' ks IH]; simpl; [tauto|].
  intros Hin. rewrite obj_get_app.
  destruct (key_eq_dec k' k) as [->|Hne].
  - destruct (obj_get o k) as [v|] eqn:E; simpl.
    + now rewrite str_eqb_refl.
    + destruct (key_in_dec k ks) as [Hk|Hk]; [now apply IH|].
      apply obj_get_None. intros Hin'. apply Hk.
      clear - Hin'. induction ks as [|a ks IH]; simpl in *; [tauto|].
      destruct (obj_get o a) eqn:E; simpl in *; tauto.
  - destruct Hin as [?|Hin]; [congruence|].
    destruct (obj_get o k') as [v|]; simpl; [|now apply IH].
    apply str_eqb_neq in Hne. rewrite Hne. now apply IH.
Qed.

Lemma sort_record_plain (o : object jsstring) :
  List.NoDup (Object_keys o) ->
  Forall plain_key (Object_keys o) ->
  V2.sort_record o = entries_of o (Array_sort (Object_keys o)).
Proof.
  intros Hnd Hplain.
  assert (Hp := Array_sort_perm (Object_keys o)).
  unfold V2.sort_record. rewrite sort_record_fold; auto.
  - eapply Permutation_NoDup; [symmetry; exact Hp | exact Hnd].
  - eapply Permutation_Forall; [symmetry; exact Hp | exact Hplain].
Qed.

(** On a record none of whose keys is an array index or [__proto__], the
    sorted copy has the keys in ascending order of their code units and
    the values of the record. *)
Lemma sort_record_canonical (o : object jsstring) :
  List.NoDup (Object_keys o) ->
  Forall plain_key (Object_keys o) ->
  Object_keys (V2.sort_record o) = Array_sort (Object_keys o)
  /\ Sorted str_le (Object_keys (V2.sort_record o))
  /\ forall k, obj_get (V2.sort_record o) k = obj_get o k.
Proof.
  intros Hnd Hplain.
  assert (Hp := Array_sort_perm (Object_keys o)).
  assert (E := sort_record_plain o Hnd Hplain).
  assert (K : Object_keys (V2.sort_record o) = Array_sort (Object_keys o)).
  { rewrite E. apply entries_of_keys. intros k Hk. eapply Permutation_in; eauto. }
  split; [exact K|]. split; [rewrite K; apply Array_sort_sorted|].
  intros k. rewrite E.
  destruct (key_in_dec k (Object_keys o)) as [Hin|Hin].
  - apply entries_of_get. eapply Permutation_in; [symmetry; exact Hp | exact Hin].
  - rewrite (proj2 (obj_get_None o k) Hin). apply obj_get_None.
    rewrite <- E, K. intros H. apply Hin. eapply Permutation_in; eauto.
Qed.

(** ** The canonical payload *)

(** The signature is the Base64 text of the HMAC-SHA256 digest, under the
    UTF-8 bytes of the key, of the UTF-8 bytes of the serialized payload. *)
Lemma calculateSignature_scheme (this : SignatureCalculator)
    (headers : object jsstring) (parameters : option (object jsstring)) (body : jsstring) :
  V2.calculateSignature this headers parameters body
  = Base64.encode
      (HMAC.hmac_sha256 (UTF8.encode (this_signatureKey this))
         (UTF8.encode
            (JSON_stringify
               (V2.payload (V2.sort_record headers)
                  (V2.sort_record (match parameters with Some p => p | None => [] end))
                  body)))).
Proof. reflexivity. Qed.

Lemma stringify_payload (headers parameters : object jsstring) (body : jsstring) :
  JSON_stringify (V2.payload headers parameters body)
  = jsq "{'headers':" ++ JSON_stringify (JRecord headers)
    ++ jsq ",'parameters':" ++ JSON_stringify (JRecord parameters)
    ++ jsq ",'body':" ++ JSON_quote body ++ jsq "}".
Proof.
  unfold V2.payload.
  change (JSON_stringify (JObj ?l))
    with ([123] ++ join [44] (List.map (fun kv => JSON_quote (fst kv) ++ [58] ++ JSON_stringify (snd kv)) l) ++ [125]).
  cbn [List.map join fst snd].
  change (JSON_stringify (JStr body)) with (JSON_quote body).
  change (JSON_quote (js "headers")) with (jsq "'headers'").
  change (JSON_quote (js "parameters")) with (jsq "'parameters'").
  change (JSON_quote (js "body")) with (jsq "'body'").
  repeat rewrite <- app_assoc. reflexivity.
Qed.

Lemma stringify_record (o : object jsstring) :
  JSON_stringify (JRecord o)
  = js "{"
    ++ join (js ",")
         (List.map (fun kv => JSON_quote (fst kv) ++ js ":" ++ JSON_quote (snd kv)) o)
    ++ js "}".
Proof.
  unfold JRecord.
  change (JSON_stringify (JObj ?l))
    with ([123] ++ join [44] (List.map (fun kv => JSON_quote (fst kv) ++ [58] ++ JSON_stringify (snd kv)) l) ++ [125]).
  rewrite List.map_map. reflexivity.
Qed.

Lemma sort_record_api_headers (a i : jsstring) :
  V2.sort_record [(js "Api-Key", a); (js "Idempotency-Key", i)]
  = [(js "Api-Key", a); (js "Idempotency-Key", i)].
Proof. reflexivity. Qed.

(** Empty maps: the payload is the object with two empty objects and the
    body, and the signature is its digest. *)
Lemma calculateSignature_empty_maps (this : SignatureCalculator) (body : jsstring) :
  V2.calculateSignature this [] (Some []) body
  = hmac_sha256_base64 (this_signatureKey this)
      (jsq "{'headers':{},'parameters':{},'body':" ++ JSON_quote body ++ jsq "}")
  /\ V2.calculateSignature this [] None body = V2.calculateSignature this [] (Some []) body.
Proof.
  split; [|reflexivity].
  unfold V2.calculateSignature.
  change (V2.sort_record []) with (@nil (jsstring * jsstring)).
  now rewrite stringify_payload.
Qed.

(** On maps whose keys are neither array indices nor [__proto__], the
    signature is the digest of the canonical text: the members [headers],
    [parameters] and [body] in this order, the two maps with their keys in
    ascending order, no white space. *)
Lemma calculateSignature_canonical (this : SignatureCalculator)
    (headers parameters : object jsstring) (body : jsstring) :
  List.NoDup (Object_keys headers) ->
  List.NoDup (Object_keys parameters) ->
  Forall plain_key (Object_keys headers) ->
  Forall plain_key (Object_keys parameters) ->
  V2.calculateSignature this headers (Some parameters) body
  = hmac_sha256_base64 (this_signatureKey this)
      (jsq "{'headers':"
       ++ JSON_stringify (JRecord (entries_of headers (Array_sort (Object_keys headers))))
       ++ jsq ",'parameters':"
       ++ JSON_stringify (JRecord (entries_of parameters (Array_sort (Object_keys parameters))))
       ++ jsq ",'body':" ++ JSON_quote body ++ jsq "}").
Proof.
  intros Hh Hp Ph Pp. unfold V2.calculateSignature.
  rewrite (sort_record_plain headers Hh Ph), (sort_record_plain parameters Hp Pp).
  now rewrite stringify_payload.
Qed.

(** On strings of ASCII characters, as the names of HTTP headers are, the
    UTF-8 bytes are the code units, so the order of [sort] is the order of
    the bytes. *)
Lemma utf8_encode_ascii (s : jsstring) :
  Forall (fun c => c < 128) s -> UTF8.encode s = s.
Proof.
  induction 1 as [|c s Hc _ IH]; [reflexivity|].
  cbn [UTF8.encode]. unfold UTF8.is_high_surrogate, UTF8.is_low_surrogate, UTF8.encode_point.
  destruct (N.leb_spec 0xD800 c); [lia|]. destruct (N.leb_spec 0xDC00 c); [lia|].
  cbn [andb]. destruct (N.ltb_spec c 0x80); [|lia].
  simpl. now rewrite IH.
Qed.

Lemma sort_order_ascii (a b : jsstring) :
  Forall (fun c => c < 128) a -> Forall (fun c => c < 128) b ->
  str_ltb a b = str_ltb (UTF8.encode a) (UTF8.encode b).
Proof. intros Ha Hb. now rewrite !utf8_encode_ascii. Qed.

(** Beyond the Basic Multilingual Plane the two orders part: U+FF5E sorts
    after the surrogate pair of U+1F600, while its bytes come first. *)
Example sort_order_astral :
  str_ltb [0xD83D; 0xDE00] [0xFF5E] = true
  /\ str_ltb (UTF8.encode [0xFF5E]) (UTF8.encode [0xD83D; 0xDE00]) = true.
Proof. split; vm_compute; reflexivity. Qed.

Lemma dec_value_app (a b : jsstring) :
  dec_value (a ++ b) = fold_left (fun acc c => 10 * acc + (c - 48)) b (dec_value a).
Proof. unfold dec_value. apply fold_left_app. Qed.

Lemma fold_digits_shift (b : jsstring) (x : N) :
  fold_left (fun acc c => 10 * acc + (c - 48)) b x
  = x * 10 ^ N.of_nat (length b) + dec_value b.
Proof.
  unfold dec_value. revert x. induction b as [|c b IH]; intros x.
  - simpl. lia.
  - cbn [fold_left length]. rewrite IH, (IH (10 * 0 + (c - 48))).
    rewrite Nat2N.inj_succ, N.pow_succ_r'. lia.
Qed.

Lemma dec_digits_value (f : nat) (n : N) (acc : jsstring) :
  n < 10 ^ N.of_nat f ->
  dec_value (dec_digits f n acc) = n * 10 ^ N.of_nat (length acc) + dec_value acc.
Proof.
  revert n acc. induction f as [|f IH]; intros n acc Hn.
  - simpl in Hn. assert (n = 0) by lia. subst. simpl. lia.
  - cbn [dec_digits]. rewrite Nat2N.inj_succ, N.pow_succ_r' in Hn.
    assert (Hd : dec_value ((48 + n mod 10) :: acc)
                 = (n mod 10) * 10 ^ N.of_nat (length acc) + dec_value acc).
    { change ((48 + n mod 10) :: acc) with ([48 + n mod 10] ++ acc).
      rewrite dec_value_app, fold_digits_shift.
      assert (E : dec_value [48 + n mod 10] = n mod 10)
        by (unfold dec_value; cbn [fold_left]; generalize (n mod 10); intros x; lia).
      now rewrite E. }
    destruct (N.ltb_spec n 10) as [Hlt|Hge].
    + rewrite Hd, N.mod_small by lia. reflexivity.
    + rewrite IH.
      * rewrite Hd. cbn [length]. rewrite Nat2N.inj_succ, N.pow_succ_r'.
        pose proof (N.div_mod n 10). nia.
      * apply N.Div0.div_lt_upper_bound. lia.
Qed.

(** The decimal text of a number reads back as the number. *)
Lemma N_toString_value (n : N) : dec_value (N_toString n) = n.
Proof.
  unfold N_toString. rewrite dec_digits_value.
  - change (n * 1 + 0 = n). lia.
  - destruct n as [|p]; [simpl; lia|].
    rewrite Nat2N.inj_succ, N2Nat.id.
    pose proof (N.log2_spec (N.pos p) eq_refl) as [_ H].
    eapply N.lt_le_trans; [exact H|].
    apply N.pow_le_mono_l. lia.
Qed.

(** ** [JSON.parse]: the fuel is enough *)

Lemma skip_ws_length (s : jsstring) : (length (skip_ws s) <= length s)%nat.
Proof.
  induction s as [|c s IH]; simpl; [lia|].
  destruct (is_ws c); simpl; lia.
Qed.

Lemma parse_string_length (s acc str r : jsstring) :
  parse_string s acc = Some (str, r) -> (length r < length s)%nat.
Proof.
  revert acc. induction s as [s IH] using (induction_ltof1 _ (@length N)).
  unfold ltof in IH. intros acc H. destruct s as [|c s]; simpl in H; [discriminate|].
  destruct (c =? 34).
  - injection H as _ <-. simpl. lia.
  - destruct (c =? 92).
    + destruct s as [|e s1]; [discriminate|].
      destruct (e =? 117).
      * destruct s1 as [|h1 [|h2 [|h3 [|h4 r2]]]]; try discriminate.
        destruct (hex_value h1), (hex_value h2), (hex_value h3), (hex_value h4);
          try discriminate.
        apply IH in H; simpl in *; lia.
      * destruct (escape_char e); [|discriminate].
        apply IH in H; simpl in *; lia.
    + destruct (c <? 32); [discriminate|].
      apply IH in H; simpl in *; lia.
Qed.

Lemma take_digits_length (s ds r : jsstring) :
  take_digits s = (ds, r) -> (length r <= length s)%nat.
Proof.
  revert ds r. induction s as [|c s IH]; simpl; intros ds r H.
  - injection H as _ <-. simpl. lia.
  - destruct (is_digit c).
    + destruct (take_digits s) as [ds' r'] eqn:E. injection H as _ <-.
      specialize (IH _ _ eq_refl). lia.
    + injection H as _ <-. simpl. lia.
Qed.

Lemma parse_int_length (s ip r : jsstring) :
  parse_int s = Some (ip, r) -> (length r < length s)%nat.
Proof.
  destruct s as [|c s]; simpl; [discriminate|].
  destruct (c =? 48).
  - intros [= _ <-]. lia.
  - destruct (is_digit c) eqn:D; [|discriminate].
    destruct (take_digits s) as [ds r'] eqn:E. intros [= _ <-].
    apply take_digits_length in E. lia.
Qed.

Lemma parse_frac_length (s fd r : jsstring) :
  parse_frac s = Some (fd, r) -> (length r <= length s)%nat.
Proof.
  unfold parse_frac. intros H.
  assert (D : forall t, take_digits t = (fd, r) -> (length r <= length t)%nat)
    by (intros t; apply take_digits_length).
  destruct s as [|c s]; [injection H as _ <-; lia|].
  destruct (N.eq_dec c 46) as [->|Hc].
  - destruct (take_digits s) as [[|d ds] r'] eqn:E; [discriminate|].
    injection H as <- <-. apply take_digits_length in E. simpl. lia.
  - assert (H' : Some (@nil N, c :: s) = Some (fd, r)).
    { destruct c as [|p]; [exact H|].
      repeat (destruct p as [p|p|]; try exact H); congruence. }
    injection H' as _ <-. lia.
Qed.

Lemma parse_exp_length (s r : jsstring) (e : Z) :
  parse_exp s = Some (e, r) -> (length r <= length s)%nat.
Proof.
  unfold parse_exp. destruct s as [|c s]; [intros [= _ <-]; lia|].
  destruct ((c =? 101) || (c =? 69)); [|intros [= _ <-]; lia].
  destruct s as [|d s'].
  - simpl. discriminate.
  - destruct (d =? 45); [|destruct (d =? 43)].
    + destruct (take_digits s') as [[|x ds] r'] eqn:E; [discriminate|].
      intros [= _ <-]. apply take_digits_length in E. simpl. lia.
    + destruct (take_digits s') as [[|x ds] r'] eqn:E; [discriminate|].
      intros [= _ <-]. apply take_digits_length in E. simpl. lia.
    + destruct (take_digits (d :: s')) as [[|x ds] r'] eqn:E; [discriminate|].
      intros [= _ <-]. apply take_digits_length in E. simpl in *. lia.
Qed.

Lemma parse_number_length (s r : jsstring) (v : json) :
  parse_number s = Some (v, r) -> (length r < length s)%nat.
Proof.
  unfold parse_number.
  set (p := match s with
            | [] => (false, s)
            | c :: r0 => if c =? 45 then (true, r0) else (false, s)
            end).
  assert (Hp : (length (snd p) <= length s)%nat).
  { subst p. destruct s as [|c r0]; simpl; [lia|]. destruct (c =? 45); simpl; lia. }
  destruct p as [neg s1]. simpl in Hp.
  destruct (parse_int s1) as [[ip s2]|] eqn:E1; [|discriminate].
  destruct (parse_frac s2) as [[fd s3]|] eqn:E2; [|discriminate].
  destruct (parse_exp s3) as [[ex s4]|] eqn:E3; [|discriminate].
  intros [= _ <-].
  apply parse_int_length in E1. apply parse_frac_length in E2. apply parse_exp_length in E3.
  lia.
Qed.

Lemma expect_length (lit s r : jsstring) :
  expect lit s = Some r -> length s = (length lit + length r)%nat.
Proof.
  revert s. induction lit as [|x lit IH]; intros s; simpl.
  - intros [= <-]. reflexivity.
  - destruct s as [|y s]; [discriminate|].
    destruct (x =? y); [|discriminate]. intros H. apply IH in H. simpl. lia.
Qed.

Lemma parse_literal_length (lit s r : jsstring) (v v' : json) :
  lit <> [] -> parse_literal lit v s = Some (v', r) -> (length r < length s)%nat.
Proof.
  unfold parse_literal. intros Hlit.
  destruct (expect lit s) as [r'|] eqn:E; [|discriminate].
  intros [= _ <-]. apply expect_length in E.
  destruct lit; [congruence|]. simpl in E. lia.
Qed.

Lemma enough_value_step (f : nat) :
  enough_elements f -> enough_members f -> enough_value (S f).
Proof.
  intros HE HM s v r H. cbn [parse_value] in H.
  pose proof (skip_ws_length s) as Hs.
  destruct (skip_ws s) as [|c r0] eqn:Es; [discriminate|]. simpl in Hs.
  destruct (c =? 123) eqn:C1.
  { pose proof (skip_ws_length r0) as Hr0.
    destruct (skip_ws r0) as [|d r'] eqn:Er; [discriminate|]. simpl in Hr0.
    destruct (d =? 125) eqn:D.
    - injection H as <- <-. split; [lia|]. intros g Hg.
      destruct g as [|g]; [lia|]. cbn [parse_value]. now rewrite Es, C1, Er, D.
    - apply HM in H as [Hl Hg]. split; [lia|]. intros g Hg'.
      destruct g as [|g]; [lia|]. cbn [parse_value]. rewrite Es, C1, Er, D.
      apply Hg. lia. }
  destruct (c =? 91) eqn:C2.
  { pose proof (skip_ws_length r0) as Hr0.
    destruct (skip_ws r0) as [|d r'] eqn:Er; [discriminate|]. simpl in Hr0.
    destruct (d =? 93) eqn:D.
    - injection H as <- <-. split; [lia|]. intros g Hg.
      destruct g as [|g]; [lia|]. cbn [parse_value]. now rewrite Es, C1, C2, Er, D.
    - apply HE in H as [Hl Hg]. split; [lia|]. intros g Hg'.
      destruct g as [|g]; [lia|]. cbn [parse_value]. rewrite Es, C1, C2, Er, D.
      apply Hg. lia. }
  assert (L : (length r < length (c :: r0))%nat).
  { destruct (c =? 34).
    - destruct (parse_string r0 []) as [[str r']|] eqn:E; [|discriminate].
      injection H as _ <-. apply parse_string_length in E. simpl. lia.
    - destruct (c =? 116); [apply parse_literal_length in H; [exact H | discriminate]|].
      destruct (c =? 102); [apply parse_literal_length in H; [exact H | discriminate]|].
      destruct (c =? 110); [apply parse_literal_length in H; [exact H | discriminate]|].
      now apply parse_number_length in H. }
  simpl in L. split; [lia|]. intros g Hg.
  destruct g as [|g]; [lia|]. cbn [parse_value]. rewrite Es, C1, C2. exact H.
Qed.

Lemma enough_elements_step (f : nat) :
  enough_value f -> enough_elements f -> enough_elements (S f).
Proof.
  intros HV HE acc s v r H. cbn [parse_elements] in H.
  destruct (parse_value f s) as [[v1 r1]|] eqn:E1; [|discriminate].
  apply HV in E1 as [L1 G1].
  pose proof (skip_ws_length r1) as Hr1.
  destruct (skip_ws r1) as [|c r'] eqn:Er; [discriminate|]. simpl in Hr1.
  destruct (c =? 44) eqn:C1.
  - apply HE in H as [L2 G2]. split; [lia|]. intros g Hg.
    destruct g as [|g]; [lia|]. cbn [parse_elements].
    rewrite (G1 g) by lia. rewrite Er, C1. apply G2. lia.
  - destruct (c =? 93) eqn:C2; [|discriminate].
    injection H as <- <-. split; [lia|]. intros g Hg.
    destruct g as [|g]; [lia|]. cbn [parse_elements].
    rewrite (G1 g) by lia. now rewrite Er, C1, C2.
Qed.

Lemma enough_members_step (f : nat) :
  enough_value f -> enough_members f -> enough_members (S f).
Proof.
  intros HV HM acc s v r H. cbn [parse_members] in H.
  pose proof (skip_ws_length s) as Hs.
  destruct (skip_ws s) as [|q r0] eqn:Es; [discriminate|]. simpl in Hs.
  destruct (q =? 34) eqn:Q; [|discriminate].
  destruct (parse_string r0 []) as [[k r1]|] eqn:Ek; [|discriminate].
  pose proof (parse_string_length _ _ _ _ Ek) as Lk.
  pose proof (skip_ws_length r1) as Hr1.
  destruct (skip_ws r1) as [|colon r2] eqn:Er1; [discriminate|]. simpl in Hr1.
  destruct (colon =? 58) eqn:C; [|discriminate].
  destruct (parse_value f r2) as [[v1 r3]|] eqn:E1; [|discriminate].
  apply HV in E1 as [L1 G1].
  pose proof (skip_ws_length r3) as Hr3.
  destruct (skip_ws r3) as [|c r4] eqn:Er3; [discriminate|]. simpl in Hr3.
  destruct (c =? 44) eqn:C1.
  - apply HM in H as [L2 G2]. split; [lia|]. intros g Hg.
    destruct g as [|g]; [lia|]. cbn [parse_members].
    rewrite Es, Q, Ek, Er1, C. rewrite (G1 g) by lia. rewrite Er3, C1. apply G2. lia.
  - destruct (c =? 125) eqn:C2; [|discriminate].
    injection H as <- <-. split; [lia|]. intros g Hg.
    destruct g as [|g]; [lia|]. cbn [parse_members].
    rewrite Es, Q, Ek, Er1, C. rewrite (G1 g) by lia. now rewrite Er3, C1, C2.
Qed.

Lemma enough_fuel (f : nat) : enough_value f /\ enough_elements f /\ enough_members f.
Proof.
  induction f as [|f (HV & HE & HM)].
  - repeat split; discriminate.
  - split; [now apply enough_value_step|].
    split; [now apply enough_elements_step | now apply enough_members_step].
Qed.

(** Whatever some amount of fuel parses, the fuel of [JSON_parse] parses:
    [JSON_parse] rejects a text only if the grammar does. *)
Lemma JSON_parse_fuel (f : nat) (s : jsstring) (v : json) (r : jsstring) :
  parse_value f s = Some (v, r) -> parse_value (fuel_for s) s = Some (v, r).
Proof.
  intros H. destruct (enough_fuel f) as (HV & _ & _).
  apply HV in H as [_ G]. apply G. unfold fuel_for. lia.
Qed.

Lemma JSON_parse_complete (f : nat) (s : jsstring) (v : json) (r : jsstring) :
  parse_value f s = Some (v, r) -> skip_ws r = [] -> JSON_parse s = Some v.
Proof.
  intros H Hr. unfold JSON_parse. rewrite (JSON_parse_fuel f s v r H), Hr. reflexivity.
Qed.

(** ** The run of the client methods *)

Lemma createPayment2_run (this : PaynowClient) (req : json) (w : World) :
  V2.createPayment this req w
  = (createPayment_settled (network w (payment_call2 this req w)),
     {| uuids := uuids w; uuid_calls := S (uuid_calls w); network := network w;
        issued := issued w ++ [payment_call2 this req w] |}).
Proof.
  unfold V2.createPayment, uuidv4, axios_post, axios_request, createPayment_settled,
    payment_call2, post_payments.
  cbn [uuids uuid_calls network issued].
  match goal with
  | |- context [network w ?c] => destruct (network w c) as [response|error]
  end; [|reflexivity].
  destruct (AxiosResponse.data response); reflexivity.
Qed.

Lemma createPayment1_run (this : PaynowClient) (req : json) (w : World) :
  V1.createPayment this req w
  = (createPayment_settled (network w (payment_call1 this req w)),
     {| uuids := uuids w; uuid_calls := S (uuid_calls w); network := network w;
        issued := issued w ++ [payment_call1 this req w] |}).
Proof.
  unfold V1.createPayment, uuidv4, axios_post, axios_request, createPayment_settled,
    payment_call1, post_payments.
  cbn [uuids uuid_calls network issued].
  match goal with
  | |- context [network w ?c] => destruct (network w c) as [response|error]
  end; [|reflexivity].
  destruct (AxiosResponse.data response); reflexivity.
Qed.

Lemma getPaymentStatus_run (this : PaynowClient) (pid : jsstring) (w : World) :
  getPaymentStatus this pid w
  = (match network w (status_call this pid) with
     | Resolved response => Return (AxiosResponse.data response)
     | Rejected error => throw_handled error
     end,
     {| uuids := uuids w; uuid_calls := uuid_calls w; network := network w;
        issued := issued w ++ [status_call this pid] |}).
Proof.
  unfold getPaymentStatus, axios_get, axios_request, status_call.
  match goal with
  | |- context [network w ?c] => destruct (network w c)
  end; reflexivity.
Qed.

(** Successive payments take successive values of [uuidv4()]. *)
Lemma createPayment2_twice (this : PaynowClient) (req1 req2 : json) (w : World) :
  let w1 := snd (V2.createPayment this req1 w) in
  let w2 := snd (V2.createPayment this req2 w1) in
  List.map (fun c => obj_get (call_headers c) (js "Idempotency-Key")) (issued w2)
  = List.map (fun c => obj_get (call_headers c) (js "Idempotency-Key")) (issued w)
    ++ [Some (uuids w (uuid_calls w)); Some (uuids w (S (uuid_calls w)))].
Proof.
  intros w1 w2. subst w1 w2. rewrite !createPayment2_run. simpl.
  rewrite !List.map_app, <- app_assoc. reflexivity.
Qed.

(** ** [handleError] on an error list of the expected shape *)

Lemma render_entry_reads_as (item : json) (err : PaynowError.t) :
  reads_as item err -> render_entry item = Some (render_error err).
Proof.
  intros [Hm Hf]. unfold render_entry, render_error. rewrite Hm, Hf.
  destruct (PaynowError.field err) as [[|c f]|]; reflexivity.
Qed.

Lemma render_entries_reads_as (items : list json) (errs : list PaynowError.t) :
  Forall2 reads_as items errs ->
  render_entries items = Some (List.map render_error errs).
Proof.
  induction 1 as [|item err items errs H _ IH]; [reflexivity|].
  cbn [render_entries List.map]. now rewrite (render_entry_reads_as item err H), IH.
Qed.

Lemma reads_as_json (err : PaynowError.t) : reads_as (PaynowError_json err) err.
Proof.
  destruct err as [m [c|] [f|]]; split; reflexivity.
Qed.

Lemma reads_as_all (errs : list PaynowError.t) :
  Forall2 reads_as (List.map PaynowError_json errs) errs.
Proof.
  induction errs as [|err errs IH]; constructor; [apply reads_as_json | exact IH].
Qed.

Lemma handleError_list (e : AxiosError.t) (items : list json) (errs : list PaynowError.t) :
  response_errors e = Some (JArr items) ->
  Forall2 reads_as items errs ->
  handleError (IsAxiosError e)
  = Some {| message := js "Paynow API Error: "
                       ++ join (js ", ") (List.map render_error errs) |}.
Proof.
  intros H HF. unfold handleError. rewrite H. cbn [truthy_opt truthy].
  now rewrite (render_entries_reads_as items errs HF).
Qed.

(** * The claims *)

(** C1.  At the parameter map with the keys 10 and 9 the keys are sorted
    as 10, 9, yet the object built from them lists the key 9 before the key
    10, and so does the payload that is signed: the signature is the digest
    of the text with 9 first, and differs from the digest of the text whose
    keys are in sorted order. *)
Theorem C1_array_index_keys :
  Array_sort (Object_keys index_parameters) = [js "10"; js "9"]
  /\ V2.sort_record index_parameters = [(js "9", js "b"); (js "10", js "a")]
  /\ JSON_stringify (V2.payload (V2.sort_record []) (V2.sort_record index_parameters) (js ""))
     = jsq "{'headers':{},'parameters':{'9':'b','10':'a'},'body':''}"
  /\ V2.calculateSignature test_calculator [] (Some index_parameters) (js "")
     = hmac_sha256_base64 (js "test-key")
         (jsq "{'headers':{},'parameters':{'9':'b','10':'a'},'body':''}")
  /\ V2.calculateSignature test_calculator [] (Some index_parameters) (js "")
     <> hmac_sha256_base64 (js "test-key")
          (jsq "{'headers':{},'parameters':{'10':'a','9':'b'},'body':''}").
Proof.
  split; [vm_compute; reflexivity|].
  split; [vm_compute; reflexivity|].
  split; [vm_compute; reflexivity|].
  split; [vm_compute; reflexivity|].
  vm_compute. discriminate.
Qed.


(** C3.  A received signature that is not, code unit for code unit, the
    signature computed for the body is rejected: [verifySignature] returns
    [false]. *)
Theorem C3_mismatch_is_false (this : SignatureCalculator) (S B : jsstring) :
  S <> V2.calculateSignatureSimple this B ->
  V2.verifySignature this S B = false /\ V1.verifySignature this S B = false.
Proof.
  intros Hne.
  assert (H : str_eqb (hmac_sha256_base64 (this_signatureKey this) B) S = false).
  { apply str_eqb_neq. intros E. apply Hne. symmetry. exact E. }
  split; exact H.
Qed.

Lemma C3_mismatch_is_false_witness :
  js "wrong-signature" <> V2.calculateSignatureSimple test_calculator test_notification
  /\ V2.verifySignature test_calculator (js "wrong-signature") test_notification = false
  /\ V1.verifySignature test_calculator (js "wrong-signature") test_notification = false.
Proof.
  assert (Hne : js "wrong-signature"
                <> V2.calculateSignatureSimple test_calculator test_notification).
  { vm_compute. discriminate. }
  split; [exact Hne|].
  exact (C3_mismatch_is_false test_calculator (js "wrong-signature") test_notification Hne).
Defined.

(** C4.  The API signature does not depend on the order in which the
    properties of the header map or of the parameter map were created: two
    maps that hold the same key-value pairs give the same signature. *)
Theorem C4_order_independence (this : SignatureCalculator)
    (H1 H2 P1 P2 : object jsstring) (B : jsstring) :
  List.NoDup (Object_keys H1) ->
  List.NoDup (Object_keys P1) ->
  H1 ≡ₚ H2 ->
  P1 ≡ₚ P2 ->
  V2.calculateSignature this H1 (Some P1) B = V2.calculateSignature this H2 (Some P2) B.
Proof.
  intros HndH HndP HH HP. unfold V2.calculateSignature.
  rewrite (sort_record_order_independent H1 H2 HndH HH).
  rewrite (sort_record_order_independent P1 P2 HndP HP).
  reflexivity.
Qed.

Lemma C4_order_independence_witness :
  V2.calculateSignature test_calculator headers_zam (Some params_ba) (jsq "{'test':true}")
  = V2.calculateSignature test_calculator headers_amz (Some params_ab) (jsq "{'test':true}").
Proof.
  apply C4_order_independence.
  - vm_compute. repeat constructor; simpl; intuition discriminate.
  - vm_compute. repeat constructor; simpl; intuition discriminate.
  - unfold headers_zam, headers_amz.
    apply (Permutation_cons_app [_; _] []). apply Permutation_refl.
  - apply perm_swap.
Defined.

(** Counterexample to C5 as stated: the [createPayment] of
    [paymentClient.ts] attaches a signature that is not the one of the
    three-argument scheme. *)
Lemma C5_first_generation_signs_body :
  List.map (fun c => obj_get (call_headers c) (js "Signature"))
    (issued (snd (V1.createPayment test_client test_request (world_with created))))
  <> [Some (V2.calculateSignature (this_signatureCalculator test_client)
              [(js "Api-Key", this_apiKey test_client); (js "Idempotency-Key", test_uuid)]
              (Some []) (JSON_stringify test_request))].
Proof. vm_compute. discriminate. Qed.

(** C5, amended.  The [createPayment] of the second generation takes the
    next value of [uuidv4()] as idempotency key, serializes the request,
    and issues one POST to [/payments] whose [Signature] header is the
    digest of the payload with the headers [Api-Key] and [Idempotency-Key],
    no parameters, and the serialized request as body, and whose
    [Idempotency-Key] header is that key.  The [createPayment] of the first
    generation issues the same call with the digest of the serialized
    request alone as [Signature]. *)
Theorem C5_createPayment_signature (this : PaynowClient) (req : json) (w : World) :
  let key := this_signatureKey (this_signatureCalculator this) in
  let idempotencyKey := uuids w (uuid_calls w) in
  let body := JSON_stringify req in
  let signature2 :=
    hmac_sha256_base64 key
      (jsq "{'headers':{'Api-Key':" ++ JSON_quote (this_apiKey this)
       ++ jsq ",'Idempotency-Key':" ++ JSON_quote idempotencyKey
       ++ jsq "},'parameters':{},'body':" ++ JSON_quote body ++ jsq "}") in
  let call signature :=
    {| call_instance := this_apiClient this;
       call_method := POST;
       call_url := js "/payments";
       call_data := Some req;
       call_headers := [(js "Signature", signature);
                        (js "Idempotency-Key", idempotencyKey)] |} in
  V2.calculateSignature (this_signatureCalculator this)
    [(js "Api-Key", this_apiKey this); (js "Idempotency-Key", idempotencyKey)]
    (Some []) body = signature2
  /\ issued (snd (V2.createPayment this req w)) = issued w ++ [call signature2]
  /\ uuid_calls (snd (V2.createPayment this req w)) = S (uuid_calls w)
  /\ issued (snd (V1.createPayment this req w))
     = issued w ++ [call (hmac_sha256_base64 key body)].
Proof.
  intros key idempotencyKey body signature2 call.
  assert (E : V2.calculateSignature (this_signatureCalculator this)
                [(js "Api-Key", this_apiKey this); (js "Idempotency-Key", idempotencyKey)]
                (Some []) body = signature2).
  { assert (S : JSON_stringify
                   (V2.payload [(js "Api-Key", this_apiKey this); (js "Idempotency-Key", idempotencyKey)]
                      [] body)
                 = jsq "{'headers':{'Api-Key':" ++ JSON_quote (this_apiKey this)
                   ++ jsq ",'Idempotency-Key':" ++ JSON_quote idempotencyKey
                   ++ jsq "},'parameters':{},'body':" ++ JSON_quote body ++ jsq "}").
    { rewrite stringify_payload, !stringify_record. cbn [List.map join fst snd].
      change (JSON_quote (js "Api-Key")) with (jsq "'Api-Key'").
      change (JSON_quote (js "Idempotency-Key")) with (jsq "'Idempotency-Key'").
      repeat rewrite <- app_assoc. reflexivity. }
    unfold V2.calculateSignature. rewrite sort_record_api_headers.
    change (V2.sort_record []) with (@nil (jsstring * jsstring)).
    rewrite S. reflexivity. }
  split; [exact E|].
  rewrite createPayment2_run, createPayment1_run. cbn [snd issued uuid_calls].
  unfold payment_call2, payment_call1, post_payments.
  fold idempotencyKey body. rewrite E.
  repeat split.
Qed.

(** Counterexample to C6 as stated: an entry of the error list that has no
    field is rendered as its message alone. *)
Lemma C6_entry_without_field :
  fst (V2.createPayment test_client test_request (world_with (bad_request no_field_errors)))
  = Throw {| message := js "Paynow API Error: Invalid request" |}
  /\ js "Paynow API Error: Invalid request"
     <> js "Paynow API Error: " ++ join (js ", ") (List.map spec_render_error no_field_errors).
Proof. split; [vm_compute; reflexivity | vm_compute; discriminate]. Qed.

(** C6, amended.  When the HTTP call of [createPayment] or of
    [getPaymentStatus] is rejected with an Axios error, the method throws
    what [handleError] makes of it.  Where the [errors] of the response
    body, if truthy, is an array whose entries have a string message and a
    string or no field (the shape [PaynowApiError]), that is an error whose
    message is taken, in this order of priority: from the error list when
    the body has one, each entry rendered as 'field: message' when it has a
    non-empty field and as its message alone otherwise, the entries joined
    by a comma and a space; otherwise from the HTTP status of the response;
    otherwise from the timeout code, and failing that from the message of
    the Axios error.  A 400 response with the entry (amount, must be
    positive) gives a message that contains 'amount: must be positive'.
    Where [errors] is truthy and not an array, [handleError] itself throws
    a [TypeError], and the method throws that. *)
Theorem C6_error_message (e : AxiosError.t) :
  (forall this req pid w,
      (network w (payment_call2 this req w) = Rejected (IsAxiosError e) ->
       fst (V2.createPayment this req w)
       = match handleError (IsAxiosError e) with
         | Some err => Throw err
         | None => ThrowTypeError
         end)
      /\ (network w (payment_call1 this req w) = Rejected (IsAxiosError e) ->
          fst (V1.createPayment this req w)
          = match handleError (IsAxiosError e) with
            | Some err => Throw err
            | None => ThrowTypeError
            end)
      /\ (network w (status_call this pid) = Rejected (IsAxiosError e) ->
          fst (getPaymentStatus this pid w)
          = match handleError (IsAxiosError e) with
            | Some err => Throw err
            | None => ThrowTypeError
            end))
  /\ (forall items errs,
        response_errors e = Some (JArr items) ->
        Forall2 reads_as items errs ->
        handleError (IsAxiosError e)
        = Some {| message := js "Paynow API Error: "
                             ++ join (js ", ") (List.map render_error errs) |})
  /\ (forall r body,
        AxiosError.response e = Some r ->
        AxiosResponse.data r = PaynowApiError_json body ->
        handleError (IsAxiosError e)
        = Some {| message := js "Paynow API Error: "
                             ++ join (js ", ") (List.map render_error (errors body)) |})
  /\ (forall st,
        truthy_opt (response_errors e) = false ->
        response_status e = Some st -> st <> 0 ->
        handleError (IsAxiosError e)
        = Some {| message := js "Paynow API Error: HTTP " ++ N_toString st |})
  /\ (truthy_opt (response_errors e) = false ->
      response_status e = None \/ response_status e = Some 0 ->
      handleError (IsAxiosError e)
      = Some {| message := if code_is e (js "ECONNABORTED")
                           then js "Paynow API Error: Request timeout"
                           else js "Paynow API Error: " ++ AxiosError.message e |})
  /\ (forall x,
        response_errors e = Some x -> truthy x = true ->
        (forall items, x <> JArr items) ->
        handleError (IsAxiosError e) = None)
  /\ (forall m c f,
        f <> [] ->
        render_error {| PaynowError.message := m; PaynowError.code := c;
                        PaynowError.field := Some f |} = f ++ js ": " ++ m)
  /\ (forall m c,
        render_error {| PaynowError.message := m; PaynowError.code := c;
                        PaynowError.field := None |} = m
        /\ render_error {| PaynowError.message := m; PaynowError.code := c;
                           PaynowError.field := Some [] |} = m)
  /\ fst (V2.createPayment test_client test_request (world_with (bad_request amount_errors)))
     = Throw {| message := js "Paynow API Error: amount: must be positive" |}
  /\ includes (js "amount: must be positive")
       (js "Paynow API Error: amount: must be positive") = true.
Proof.
  split.
  { intros this req pid w. rewrite createPayment2_run, createPayment1_run, getPaymentStatus_run.
    cbn [fst]. repeat split; intros ->; reflexivity. }
  split.
  { intros items errs H HF. exact (handleError_list e items errs H HF). }
  split.
  { intros r body Hr Hd. apply handleError_list with (items := List.map PaynowError_json (errors body)).
    - unfold response_errors. rewrite Hr, Hd. reflexivity.
    - apply reads_as_all. }
  split.
  { intros st H1 H2 H3. unfold handleError. rewrite H1, H2.
    destruct st; [congruence | reflexivity]. }
  split.
  { intros H1 H2. unfold handleError. rewrite H1.
    destruct H2 as [-> | ->]; destruct (code_is e (js "ECONNABORTED")); reflexivity. }
  split.
  { intros x Hx Ht Hn. unfold handleError. rewrite Hx. cbn [truthy_opt]. rewrite Ht.
    destruct x; try reflexivity. exfalso. now apply (Hn items). }
  split.
  { intros m c [|x f] Hf; [congruence|]. unfold render_error. cbn [PaynowError.field PaynowError.message].
    now rewrite <- app_assoc. }
  split.
  { intros m c. split; reflexivity. }
  split; vm_compute; reflexivity.
Qed.

(** Counterexample to C7 as stated: the body of the repository's own test,
    which has neither [externalId] nor [modifiedAt], is returned. *)
Lemma C7_missing_fields_returned :
  spec_has_required_fields
    (JObj [(js "paymentId", JStr (js "TEST-123")); (js "status", JStr (js "CONFIRMED"))])
  = false
  /\ parseNotification test_notification
     = Return (JObj [(js "paymentId", JStr (js "TEST-123"));
                     (js "status", JStr (js "CONFIRMED"))]).
Proof. split; vm_compute; reflexivity. Qed.

(** C7, amended.  [parseNotification] throws an error, with the message
    'Invalid notification data format', exactly when the string is not
    valid JSON; every valid JSON text is returned as the value it denotes,
    whatever fields it has, and whatever fuel the parser would need for it.
    [parseNotification("not json")] throws that error. *)
Theorem C7_parseNotification (s : jsstring) :
  (JSON_parse s = None
   <-> parseNotification s = Throw {| message := js "Invalid notification data format" |})
  /\ (forall v, JSON_parse s = Some v <-> parseNotification s = Return v)
  /\ (forall e, parseNotification s = Throw e
                -> e = {| message := js "Invalid notification data format" |})
  /\ (forall f v r, parse_value f s = Some (v, r) -> skip_ws r = []
                    -> parseNotification s = Return v)
  /\ parseNotification (js "not json")
     = Throw {| message := js "Invalid notification data format" |}
  /\ parseNotification (jsq "{}") = Return (JObj []).
Proof.
  split; [unfold parseNotification; destruct (JSON_parse s); split; congruence|].
  split; [intros v; unfold parseNotification; destruct (JSON_parse s); split; congruence|].
  split; [intros e; unfold parseNotification; destruct (JSON_parse s); congruence|].
  split.
  { intros f v r H Hr. unfold parseNotification.
    now rewrite (JSON_parse_complete f s v r H Hr). }
  split; vm_compute; reflexivity.
Qed.

(** C8.  The constructor takes the base URL from the environment of the
    configuration alone: the production URL for ['production'], the sandbox
    URL for ['sandbox'] and for a configuration without an environment,
    which makes the client a sandbox client. *)
Theorem C8_base_url (key skey : jsstring) :
  baseURL (this_apiClient (constructor
    {| apiKey := key; signatureKey := skey; environment := Some production |}))
  = js "https://api.paynow.pl/v3"
  /\ baseURL (this_apiClient (constructor
    {| apiKey := key; signatureKey := skey; environment := Some sandbox |}))
  = js "https://api.sandbox.paynow.pl/v3"
  /\ baseURL (this_apiClient (constructor
    {| apiKey := key; signatureKey := skey; environment := None |}))
  = js "https://api.sandbox.paynow.pl/v3"
  /\ this_environment (constructor
    {| apiKey := key; signatureKey := skey; environment := None |})
  = sandbox.
Proof. repeat split. Qed.

(** C9.  [verifyNotification] is a total function into the booleans: for
    every signature and body it returns [true] or [false], no path of it
    throws, and [false] is what it returns exactly when the signature is
    not the one computed for the body. *)
Theorem C9_verifyNotification_returns (this : PaynowClient)
    (signature notificationData : jsstring) :
  exists b : bool,
    V2.verifyNotification this signature notificationData = b
    /\ V1.verifyNotification this signature notificationData = b
    /\ (b = false
        <-> signature
            <> hmac_sha256_base64 (this_signatureKey (this_signatureCalculator this))
                 notificationData).
Proof.
  exists (V2.verifyNotification this signature notificationData).
  split; [reflexivity|]. split; [reflexivity|].
  unfold V2.verifyNotification, V2.verifySignature, V2.calculateSignatureSimple.
  rewrite str_eqb_neq. split; intros H E; apply H; symmetry; exact E.
Qed.

(** Counterexample to C10 as stated: a 2xx response whose body is [null]
    yields no [PaymentResponse]; reading [paymentId] of [null] throws
    inside the [try], and the [catch] turns it into an error. *)
Lemma C10_null_body :
  fst (V2.createPayment test_client test_request
         (world_with (Resolved {| AxiosResponse.status := 200;
                                  AxiosResponse.data := JNull |})))
  = Throw {| message := js "Unexpected error occurred" |}.
Proof. vm_compute. reflexivity. Qed.

(** C10, amended.  For every resolved (2xx) response whose body is not
    [null], [createPayment] returns the record of the three fields
    [paymentId], [redirectUrl] and [status] of the body, each as the body
    has it ([undefined] when it has none); nothing else of the body is
    returned. *)
Theorem C10_projection (this : PaynowClient) (req : json) (w : World)
    (response : AxiosResponse.t json) :
  AxiosResponse.data response <> JNull ->
  let projection :=
    {| paymentId := member (AxiosResponse.data response) (js "paymentId");
       redirectUrl := member (AxiosResponse.data response) (js "redirectUrl");
       status := member (AxiosResponse.data response) (js "status") |} in
  (network w (payment_call2 this req w) = Resolved response ->
   fst (V2.createPayment this req w) = Return projection)
  /\ (network w (payment_call1 this req w) = Resolved response ->
      fst (V1.createPayment this req w) = Return projection).
Proof.
  intros Hnull projection. subst projection.
  rewrite createPayment2_run, createPayment1_run. cbn [fst].
  split; intros ->; unfold createPayment_settled;
    destruct (AxiosResponse.data response); try reflexivity; congruence.
Qed.

Lemma C10_projection_witness :
  fst (V2.createPayment test_client test_request (world_with created))
  = Return {| paymentId := Some (JStr (js "P1"));
              redirectUrl := Some (JStr (js "https://paywall.example/P1"));
              status := Some (JStr (js "NEW")) |}.
Proof.
  refine (proj1 (C10_projection test_client test_request (world_with created)
                   {| AxiosResponse.status := 201; AxiosResponse.data := created_body |}
                   _) _).
  - discriminate.
  - reflexivity.
Defined.
